(** * Consensus bridge of the settlement layer: block codec, staking loop, syncer

    A shallow embedding of

    - [pkg/block/block.go]            ([FromAvail], [ErrNoExtrinsicFound]),
    - [consensus/avail/syncer.go]     ([getNextAvailBlockNumber], [syncNode],
                                       [syncFunc]),
    - the staking file of [consensus/avail] ([waitForStakedSequencer],
      [ensureStaked], [stakeParticipant],
      [stakeParticipantThroughTxPool]),

    followed by the properties of the bridge that are stated in the
    specification.

    Conventions.  Go integers are [Z]; a [big.Int] is an unbounded [Z] and
    its [Int64] conversion is written out with its wrap-around.  A Go
    [(value, error)] pair whose callee is an external collaborator is a
    [result]; a Go [error] that may be [nil] is an [option error]; a slice
    that may be [nil] is an [option (list _)].  Calls to collaborators are
    threaded through an explicit world and leave an [Event] in a trace, in
    program order, and so do the log lines of the syncer and of the
    staking code.  The debug and info lines of [FromAvail], which is a pure
    function otherwise, are not. *)

From Stdlib Require Import ZArith NArith List Ascii String Bool Lia.
Import ListNotations.
Open Scope Z_scope.

(* ------------------------------------------------------------------ *)
(** * Errors                                                           *)
(* ------------------------------------------------------------------ *)

(** What a collaborator reports when it fails (the text of its error). *)
Definition ExtError := string.

(** Go compares errors by identity.  [ErrNoExtrinsicFound] is the one
    sentinel that package [block] declares; every other error value that
    reaches the bridge was made by a collaborator. *)
Inductive error : Type :=
| ErrNoExtrinsicFound
| ErrExternal (e : ExtError).

Definition error_eqb (a b : error) : bool :=
  match a, b with
  | ErrNoExtrinsicFound, ErrNoExtrinsicFound => true
  | ErrExternal x, ErrExternal y => String.eqb x y
  | _, _ => false
  end.

(** A call to a collaborator that returns [(value, error)]. *)
Inductive result (A : Type) : Type :=
| Ok (a : A)
| Err (e : ExtError).
Arguments Ok {A} a.
Arguments Err {A} e.

Definition bytes := list Byte.byte.

(* ------------------------------------------------------------------ *)
(** * Data of the settlement chain (package [types])                   *)
(* ------------------------------------------------------------------ *)

Module types.

Record Header : Type := mkHeader {
  Number : Z;            (* uint64 *)
  Hash : bytes;
  ParentHash : bytes
}.

Definition Transaction := bytes.

Record Block : Type := mkBlock {
  Header_ : Header;
  Transactions : list Transaction
}.

Definition Address := bytes.

End types.

(* ------------------------------------------------------------------ *)
(** * Data of the DA chain (package [avail_types])                     *)
(* ------------------------------------------------------------------ *)

Module avail_types.

(** [UCompact] is a [big.Int]. *)
Definition UCompact := Z.

Definition int64_wrap (z : Z) : Z := (z + 2 ^ 63) mod 2 ^ 64 - 2 ^ 63.

Definition low64 (x : Z) : Z := Z.abs x mod 2 ^ 64.

(** [big.Int.Int64]: the low 64 bits of the magnitude converted to
    [int64], negated (in [int64]) when the number is negative. *)
Definition Int64 (u : UCompact) : Z :=
  let v := int64_wrap (low64 u) in
  if u <? 0 then int64_wrap (- v) else v.

Record CallIndex : Type := mkCallIndex {
  SectionIndex : Z;      (* uint8 *)
  MethodIndex : Z        (* uint8 *)
}.

(** Go's [==] on the struct: field by field. *)
Definition CallIndex_eqb (a b : CallIndex) : bool :=
  (SectionIndex a =? SectionIndex b) && (MethodIndex a =? MethodIndex b).

Record ExtrinsicSignature : Type := mkSignature {
  AppID : UCompact
}.

Record Call : Type := mkCall {
  CallIndex_ : CallIndex;
  Args : bytes
}.

Record Extrinsic : Type := mkExtrinsic {
  Signature : ExtrinsicSignature;
  Method : Call
}.

Record Header : Type := mkHeader {
  Number : Z             (* BlockNumber, uint32 *)
}.

Record Block : Type := mkBlock {
  Header_ : Header;
  Extrinsics : list Extrinsic
}.

Record SignedBlock : Type := mkSignedBlock {
  Block_ : Block
}.

End avail_types.

(* ------------------------------------------------------------------ *)
(** * Package [block]: the codec                                       *)
(* ------------------------------------------------------------------ *)

Module block.

(** The payload wrapper of [pkg/avail]; the codec only reads [Data]. *)
Record Blob : Type := mkBlob {
  Data : bytes
}.

(** The three decoders that [FromAvail] calls.  They belong to the
    SCALE codec, to [avail.Blob] and to the settlement chain's RLP
    encoding, and are taken as they are. *)
Record Decoders : Type := mkDecoders {
  codec_Decode : bytes -> result bytes;
  Blob_Decode : bytes -> result Blob;
  UnmarshalRLP : bytes -> result types.Block
}.

(** The body of the [for] loop of [FromAvail], with [toReturn] as the
    accumulator.  [inr e] is the early [return nil, err]. *)
Fixpoint FromAvail_loop (D : Decoders)
    (extrinsics : list avail_types.Extrinsic)
    (appID : avail_types.UCompact) (callIdx : avail_types.CallIndex)
    (toReturn : list types.Block) : list types.Block + ExtError :=
  match extrinsics with
  | [] => inl toReturn
  | extrinsic :: rest =>
    if negb (avail_types.Int64 (avail_types.AppID (avail_types.Signature extrinsic))
             =? avail_types.Int64 appID)
    then FromAvail_loop D rest appID callIdx toReturn
    else if negb (avail_types.CallIndex_eqb
                    (avail_types.CallIndex_ (avail_types.Method extrinsic)) callIdx)
    then FromAvail_loop D rest appID callIdx toReturn
    else
      match codec_Decode D (avail_types.Args (avail_types.Method extrinsic)) with
      | Err _ => FromAvail_loop D rest appID callIdx toReturn
      | Ok bs =>
        match Blob_Decode D bs with
        | Err _ => FromAvail_loop D rest appID callIdx toReturn
        | Ok blob =>
          match UnmarshalRLP D (Data blob) with
          | Err e => inr e
          | Ok blk => FromAvail_loop D rest appID callIdx (toReturn ++ [blk])
          end
        end
      end
  end.

Definition FromAvail (D : Decoders) (avail_blk : avail_types.SignedBlock)
    (appID : avail_types.UCompact) (callIdx : avail_types.CallIndex)
    : option (list types.Block) * option error :=
  match FromAvail_loop D
          (avail_types.Extrinsics (avail_types.Block_ avail_blk))
          appID callIdx [] with
  | inr e => (None, Some (ErrExternal e))
  | inl toReturn =>
    if (Z.of_nat (List.length toReturn) =? 0)
    then (None, Some ErrNoExtrinsicFound)
    else (Some toReturn, None)
  end.

(** [len] of a slice that may be [nil]. *)
Definition len {A} (s : option (list A)) : Z :=
  match s with
  | None => 0
  | Some l => Z.of_nat (List.length l)
  end.

End block.

(* ------------------------------------------------------------------ *)
(** * Quoting of strings (package [strconv])                           *)
(* ------------------------------------------------------------------ *)

Module strconv.

Local Open Scope N_scope.

(** The double quote, and the digits of [lowerhex]. *)
Definition quote : ascii := "034"%char.

Definition lowerhex (n : N) : ascii :=
  match String.get (N.to_nat n) "0123456789abcdef" with
  | Some c => c
  | None => "0"%char
  end.

(** What [appendEscapedRune] appends for one byte of an ASCII string:
    the quote and the backslash get a backslash, the printable
    characters stand for themselves, seven control characters have a
    letter, and the other control characters are written in
    hexadecimal.  A byte above 0x7f is kept as it is, which is what
    [Quote] does with printable text in UTF-8; it decides with the
    Unicode tables there, which are not modelled. *)
Definition escape (c : ascii) : string :=
  let n := N_of_ascii c in
  if (n =? 34) || (n =? 92) then String "\" (String c EmptyString)
  else if (32 <=? n) && (n <=? 126) then String c EmptyString
  else
    match n with
    | 7 => "\a"
    | 8 => "\b"
    | 12 => "\f"
    | 10 => "\n"
    | 13 => "\r"
    | 9 => "\t"
    | 11 => "\v"
    | _ =>
      if n <? 128
      then String "\" (String "x" (String (lowerhex (n / 16))
                                     (String (lowerhex (n mod 16)) EmptyString)))
      else String c EmptyString
    end.

(** [strconv.Quote], which [%q] of package [fmt] applies to a string. *)
Definition Quote (s : string) : string :=
  String quote
    (String.append (String.concat EmptyString (map escape (list_ascii_of_string s)))
                   (String quote EmptyString)).

End strconv.

(* ------------------------------------------------------------------ *)
(** * Package [consensus/avail]: configuration, collaborators, effects *)
(* ------------------------------------------------------------------ *)

Module avail.

(** The role of the node ([MechanismType]).  The three named roles are
    the ones the staking loop switches on; any other value of the
    string type is [OtherMechanism]. *)
Inductive MechanismType : Type :=
| BootstrapSequencer
| Sequencer
| WatchTower
| OtherMechanism (name : string).

(** [staking.NodeType]: its two constants, and the conversion
    [staking.NodeType(d.nodeType)] of a role. *)
Inductive StakingNodeType : Type :=
| staking_Sequencer
| staking_WatchTower
| staking_NodeType (m : MechanismType).

(** The fields of [Avail] that the modelled methods read.  [hasNetwork]
    is [d.network != nil]. *)
Record Avail : Type := mkAvail {
  nodeType : MechanismType;
  minerAddr : types.Address;
  signKey : bytes;
  availAppID : avail_types.UCompact;
  hasNetwork : bool
}.

(** What the [select] of the syncer's loop yields in one iteration. *)
Inductive Select : Type :=
| RecvBlock (blk : avail_types.SignedBlock)
| CloseCh.

Inductive Level : Type := Debug | Info | Warn | Error.

(** The predicate handed to [SearchBlock]. *)
Definition SearchFunc : Type :=
  avail_types.SignedBlock -> Z -> avail_types.CallIndex ->
  Z * bool * option error.

Inductive Event : Type :=
| EvLog (l : Level) (msg : string)
| EvSleep (seconds : Z)
| EvHeader (h : types.Header)
| EvSearchBlock (offset target : Z) (r : result avail_types.SignedBlock)
| EvGetLatestHeader (r : result avail_types.Header)
| EvFindCallIndex (r : result avail_types.CallIndex)
| EvBlockStream (offset : Z)
| EvStreamClose
| EvSelect (s : Select)
| EvUnStake (r : option ExtError)
| EvIsFraudProofBlock (b : types.Block) (r : bool)
| EvCheck (b : types.Block) (r : option ExtError)
| EvWriteBlock (b : types.Block) (source : MechanismType) (r : option ExtError)
| EvInProbation (r : result bool)
| EvContains (t : StakingNodeType) (r : result bool)
| EvGetBootnodeConnCount (n : Z)
| EvStakeTx (t : MechanismType) (r : result types.Transaction)
| EvSignTx (r : result types.Transaction)
| EvAddTx (tx : types.Transaction) (r : option ExtError)
| EvFromBlockchainHead (r : option ExtError)
| EvSetCoinbaseAddress (a : types.Address)
| EvSignWith (k : bytes)
| EvAddTransactions (tx : types.Transaction)
| EvBuild (r : result types.Block)
| EvSendAndWaitForStatus (b : types.Block) (r : option ExtError).

Definition Trace := list Event.

(** The collaborators, as transitions of a world [W] that the bridge
    does not look into: the local chain, the DA client, the fraud gate,
    the validator, the participant querier, the transaction pool, the
    peer layer, the signing helpers, the block builder and the clock.
    Whatever other tasks do to the world happens inside these
    transitions. *)
Record Env (W : Type) : Type := mkEnv {
  blockchain_Header : W -> types.Header * W;
  blockchain_WriteBlock :
    types.Block -> MechanismType -> W -> option ExtError * W;
  availClient_SearchBlock :
    Z -> Z -> SearchFunc -> W -> result avail_types.SignedBlock * W;
  availClient_GetLatestHeader : W -> result avail_types.Header * W;
  avail_FindCallIndex : W -> result avail_types.CallIndex * W;
  availClient_BlockStream : Z -> W -> W;
  availBlockStream_Close : W -> W;
  stakingNode_UnStake : bytes -> W -> option ExtError * W;
  fraudResolver_IsFraudProofBlock : types.Block -> W -> bool * W;
  validator_Check : types.Block -> W -> option ExtError * W;
  activeParticipantsQuerier_InProbation :
    types.Address -> W -> result bool * W;
  activeParticipantsQuerier_Contains :
    types.Address -> StakingNodeType -> W -> result bool * W;
  network_GetBootnodeConnCount : W -> Z * W;
  staking_StakeTx :
    types.Address -> Z -> MechanismType -> Z -> W ->
    result types.Transaction * W;
  txSigner_SignTx :
    types.Transaction -> bytes -> W -> result types.Transaction * W;
  txpool_AddTx : types.Transaction -> W -> option ExtError * W;
  blockBuilderFactory_FromBlockchainHead : W -> option ExtError * W;
  bb_SetCoinbaseAddress : types.Address -> W -> W;
  bb_SignWith : bytes -> W -> W;
  bb_AddTransactions : types.Transaction -> W -> W;
  bb_Build : W -> result types.Block * W;
  availSender_SendAndWaitForStatus :
    types.Block -> W -> option ExtError * W;
  time_Sleep : Z -> W -> W;
  common_ETH : Z
}.

(** What is known of a computation when it is observed: it has
    returned, or it is still inside a loop (blocked in [select] with
    nothing left to receive, or polling after the observation budget
    is spent).  Either way the trace holds what it did so far. *)
Inductive Outcome (W A : Type) : Type :=
| Returned (a : A) (t : Trace) (w : W)
| Pending (t : Trace) (w : W).
Arguments Returned {W A} a t w.
Arguments Pending {W A} t w.

Definition trace_of {W A} (o : Outcome W A) : Trace :=
  match o with
  | Returned _ t _ => t
  | Pending t _ => t
  end.

Definition world_of {W A} (o : Outcome W A) : W :=
  match o with
  | Returned _ _ w => w
  | Pending _ w => w
  end.

(** What was done before [o] began, put in front of its trace. *)
Definition prepend {W A} (t : Trace) (o : Outcome W A) : Outcome W A :=
  match o with
  | Returned a t' w => Returned a (t ++ t') w
  | Pending t' w => Pending (t ++ t') w
  end.

Definition M (W A : Type) : Type := W -> Outcome W A.

Definition ret {W A} (a : A) : M W A := fun w => Returned a [] w.

Definition bind {W A B} (m : M W A) (f : A -> M W B) : M W B :=
  fun w =>
    match m w with
    | Pending t w1 => Pending t w1
    | Returned a t w1 =>
      match f a w1 with
      | Pending t' w2 => Pending (t ++ t') w2
      | Returned b t' w2 => Returned b (t ++ t') w2
      end
    end.

(** A loop that is observed no further. *)
Definition pending {W A} : M W A := fun w => Pending [] w.

(** A collaborator call with a result, and one without. *)
Definition call {W A} (f : W -> A * W) (ev : A -> Event) : M W A :=
  fun w => let (a, w1) := f w in Returned a [ev a] w1.

Definition act {W} (f : W -> W) (ev : Event) : M W unit :=
  fun w => Returned tt [ev] (f w).

Definition log {W} (l : Level) (msg : string) : M W unit :=
  fun w => Returned tt [EvLog l msg] w.

Definition sleep {W} (E : Env W) (seconds : Z) : M W unit :=
  act (time_Sleep W E seconds) (EvSleep seconds).

Declare Scope bridge_scope.
Delimit Scope bridge_scope with bridge.
Notation "x <- c ;; k" := (bind c (fun x => k))
  (at level 61, c at next level, right associativity) : bridge_scope.
Notation "' pat <- c ;; k" :=
  (bind c (fun x => match x with pat => k end))
  (at level 61, pat pattern, c at next level, right associativity)
  : bridge_scope.
Notation "c ;;; k" := (bind c (fun _ => k))
  (at level 61, right associativity) : bridge_scope.
Local Open Scope bridge_scope.

Section Bridge.

Context {W : Type}.
Variable D : block.Decoders.
Variable E : Env W.
Variable d : Avail.

(* ---------------------------------------------------------- *)
(** ** syncer.go                                               *)
(* ---------------------------------------------------------- *)

(** The [for _, blk := range blks] of [syncFunc]. *)
Fixpoint syncFunc_range (blks : list types.Block) (targetEdgeBlock : Z)
    (availNumber : Z) : Z * bool * option error :=
  match blks with
  | [] => (-1, false, None)
  | blk :: rest =>
    if types.Number (types.Header_ blk) =? targetEdgeBlock
    then (availNumber, true, None)
    else syncFunc_range rest targetEdgeBlock availNumber
  end.

Definition syncFunc (availBlk : avail_types.SignedBlock)
    (targetEdgeBlock : Z) (callIdx : avail_types.CallIndex)
    : Z * bool * option error :=
  let '(blks, err) := block.FromAvail D availBlk (availAppID d) callIdx in
  let unexpected :=
    match err with
    | Some e => negb (error_eqb e ErrNoExtrinsicFound)
    | None => false
    end in
  if unexpected then (-1, false, err)
  else
    match blks with
    | None => (-1, false, None)
    | Some l =>
      if Z.of_nat (List.length l) <? 1 then (-1, false, None)
      else syncFunc_range l targetEdgeBlock
             (avail_types.Number
                (avail_types.Header_ (avail_types.Block_ availBlk)))
    end.

Definition getNextAvailBlockNumber : M W Z :=
  head <- call (blockchain_Header W E) EvHeader ;;
  if types.Number head =? 0 then ret 1
  else
    r <- call (availClient_SearchBlock W E 0 (types.Number head) syncFunc)
              (EvSearchBlock 0 (types.Number head)) ;;
    match r with
    | Err _ => log Error "failure to sync node" ;;; ret 0
    | Ok blk =>
      ret (avail_types.Number
             (avail_types.Header_ (avail_types.Block_ blk)))
    end.

(** The body of [for _, edgeBlk := range edgeBlks] in [syncNode]. *)
Definition processEdgeBlock (edgeBlk : types.Block) : M W unit :=
  fraud <- call (fraudResolver_IsFraudProofBlock W E edgeBlk)
                (EvIsFraudProofBlock edgeBlk) ;;
  if negb fraud then
    err <- call (validator_Check W E edgeBlk) (EvCheck edgeBlk) ;;
    match err with
    | None =>
      (if Z.of_nat (List.length (types.Transactions edgeBlk)) >? 0
       then log Warn "WE HAVE TRANSACTIONS INSIDE" else ret tt) ;;;
      werr <- call (blockchain_WriteBlock W E edgeBlk (nodeType d))
                   (EvWriteBlock edgeBlk (nodeType d)) ;;
      match werr with
      | Some _ => log Warn "failed to write edge block received from avail"
      | None => ret tt
      end
    | Some _ =>
      log Warn "failed to validate edge block received from avail"
    end
  else ret tt.

Fixpoint processEdgeBlocks (edgeBlks : list types.Block) : M W unit :=
  match edgeBlks with
  | [] => ret tt
  | edgeBlk :: rest => processEdgeBlock edgeBlk ;;; processEdgeBlocks rest
  end.

(** The [for { select ... }] of [syncNode].  [sel] is what the
    [select] yields, iteration after iteration; when nothing is left
    the loop is blocked in it. *)
Fixpoint syncLoop (hdr : avail_types.Header)
    (callIdx : avail_types.CallIndex) (sel : list Select)
    (availNextBlockNumber : Z) : M W (Z * option error) :=
  match sel with
  | [] => pending
  | CloseCh :: _ =>
    act (fun w => w) (EvSelect CloseCh) ;;;
    err <- call (stakingNode_UnStake W E (signKey d)) EvUnStake ;;
    match err with
    | Some _ =>
      log Error "failed to unstake the node" ;;;
      ret (availNextBlockNumber, None)
    | None => ret (0, None)
    end
  | RecvBlock blk :: rest =>
    act (fun w => w) (EvSelect (RecvBlock blk)) ;;;
    let '(edgeBlks, err) := block.FromAvail D blk (availAppID d) callIdx in
    let unexpected :=
      if block.len edgeBlks =? 0 then
        match err with
        | Some e => negb (error_eqb e ErrNoExtrinsicFound)
        | None => false
        end
      else false in
    if unexpected then
      log Warn "unexpected error while extracting SL blocks from Avail block" ;;;
      syncLoop hdr callIdx rest availNextBlockNumber
    else
      processEdgeBlocks (match edgeBlks with Some l => l | None => [] end) ;;;
      let number :=
        avail_types.Number
          (avail_types.Header_ (avail_types.Block_ blk)) in
      if avail_types.Number hdr =? number
      then ret (number, None)
      else syncLoop hdr callIdx rest number
  end.

Definition syncNode (sel : list Select) : M W (Z * option error) :=
  availNextBlockNumber <- getNextAvailBlockNumber ;;
  r <- call (availClient_GetLatestHeader W E) EvGetLatestHeader ;;
  match r with
  | Err _ =>
    log Error "couldn't fetch latest block hash" ;;; ret (0, None)
  | Ok hdr =>
    r <- call (avail_FindCallIndex W E) EvFindCallIndex ;;
    match r with
    | Err e => ret (availNextBlockNumber, Some (ErrExternal e))
    | Ok callIdx =>
      act (availClient_BlockStream W E availNextBlockNumber)
          (EvBlockStream availNextBlockNumber) ;;;
      res <- syncLoop hdr callIdx sel availNextBlockNumber ;;
      (* defer availBlockStream.Close() *)
      act (availBlockStream_Close W E) EvStreamClose ;;;
      ret res
    end
  end.

(* ---------------------------------------------------------- *)
(** ** The staking file                                        *)
(* ---------------------------------------------------------- *)

(** The [switch d.nodeType] at the head of [ensureStaked].  The message
    of the error is the one [fmt.Errorf] makes: [%q] writes the name as
    [strconv.Quote] does.  What [ensureStaked] itself returns is read
    from [returnErr] while the goroutine may be writing it, and is not
    modelled. *)
Definition ensureStaked_nodeType : result StakingNodeType :=
  match nodeType d with
  | BootstrapSequencer | Sequencer => Ok staking_Sequencer
  | WatchTower => Ok staking_WatchTower
  | OtherMechanism name =>
    Err (String.append "unknown node type: " (strconv.Quote name))
  end.

(** The [for] of [stakeParticipant] under [shouldWait].  It calls
    [d.network] without a [nil] test; the model is of a node that has
    a network. *)
Fixpoint stakeParticipant_wait (fuel : nat) : M W unit :=
  match fuel with
  | O => pending
  | S n =>
    c <- call (network_GetBootnodeConnCount W E) EvGetBootnodeConnCount ;;
    if c >? 0 then ret tt
    else sleep E 1 ;;; stakeParticipant_wait n
  end.

Definition stakeParticipant (fuel : nat) (shouldWait : bool)
    (nodeType_ : MechanismType) : M W (option error) :=
  (if shouldWait then stakeParticipant_wait fuel else ret tt) ;;;
  r <- call (blockBuilderFactory_FromBlockchainHead W E)
            EvFromBlockchainHead ;;
  match r with
  | Some e => ret (Some (ErrExternal e))
  | None =>
    act (bb_SetCoinbaseAddress W E (minerAddr d))
        (EvSetCoinbaseAddress (minerAddr d)) ;;;
    act (bb_SignWith W E (signKey d)) (EvSignWith (signKey d)) ;;;
    let stakeAmount := 10 * common_ETH W E in
    r <- call (staking_StakeTx W E (minerAddr d) stakeAmount nodeType_ 1000000)
              (EvStakeTx nodeType_) ;;
    match r with
    | Err e => ret (Some (ErrExternal e))
    | Ok tx =>
      r <- call (txSigner_SignTx W E tx (signKey d)) EvSignTx ;;
      match r with
      | Err e => ret (Some (ErrExternal e))
      | Ok tx =>
        act (bb_AddTransactions W E tx) (EvAddTransactions tx) ;;;
        r <- call (bb_Build W E) EvBuild ;;
        match r with
        | Err e =>
          log Error "failed to build staking block" ;;;
          ret (Some (ErrExternal e))
        | Ok blk =>
          log Debug "sending block with staking tx to Avail" ;;;
          r <- call (availSender_SendAndWaitForStatus W E blk)
                    (EvSendAndWaitForStatus blk) ;;
          match r with
          | Some e =>
            log Error "error while submitting data to avail" ;;;
            ret (Some (ErrExternal e))
          | None =>
            log Info "Successfully wrote staking block to the blockchain" ;;;
            r <- call (blockchain_WriteBlock W E blk (nodeType d))
                      (EvWriteBlock blk (nodeType d)) ;;
            match r with
            | Some e => ret (Some (ErrExternal e))
            | None => ret None
            end
          end
        end
      end
    end
  end.

(** The first [for] of [stakeParticipantThroughTxPool]. *)
Fixpoint waitBootnodeConn (fuel : nat) : M W unit :=
  match fuel with
  | O => pending
  | S n =>
    if negb (hasNetwork d) then ret tt
    else
      c <- call (network_GetBootnodeConnCount W E) EvGetBootnodeConnCount ;;
      if c >? 0 then ret tt
      else sleep E 1 ;;; waitBootnodeConn n
  end.

(** [for retries := 0; retries < 10; retries++] with [err] as the
    variable the loop assigns.  [n] bounds the iterations that are
    left; it is [10 - retries] at the call. *)
Fixpoint submitLoop (n : nat) (retries : Z) (tx : types.Transaction)
    (err : option error) : M W (option error) :=
  match n with
  | O => ret err
  | S n' =>
    if retries <? 10 then
      r <- call (txpool_AddTx W E tx) (EvAddTx tx) ;;
      match r with
      | Some e =>
        log Error "Failure to add staking tx to the txpool err: %s" ;;;
        sleep E 2 ;;;
        submitLoop n' (retries + 1) tx (Some (ErrExternal e))
      | None => ret None
      end
    else ret err
  end.

(** [for !staked] at the end of [stakeParticipantThroughTxPool]; it is
    entered with [staked = false]. *)
Fixpoint pollStaked (fuel : nat) : M W (bool * option error) :=
  match fuel with
  | O => pending
  | S n =>
    log Info "Submitted transaction, waiting for staking contract update..." ;;;
    r <- call (activeParticipantsQuerier_Contains W E (minerAddr d)
                 (staking_NodeType (nodeType d)))
              (EvContains (staking_NodeType (nodeType d))) ;;
    match r with
    | Err e => ret (false, Some (ErrExternal e))
    | Ok staked =>
      sleep E 3 ;;;
      if staked then ret (true, None) else pollStaked n
    end
  end.

Definition stakeParticipantThroughTxPool (fuel : nat)
    : M W (bool * option error) :=
  waitBootnodeConn fuel ;;;
  sleep E 5 ;;;
  let stakeAmount := 10 * common_ETH W E in
  r <- call (staking_StakeTx W E (minerAddr d) stakeAmount (nodeType d) 1000000)
            (EvStakeTx (nodeType d)) ;;
  match r with
  | Err e => ret (false, Some (ErrExternal e))
  | Ok tx =>
    r <- call (txSigner_SignTx W E tx (signKey d)) EvSignTx ;;
    match r with
    | Err e => ret (false, Some (ErrExternal e))
    | Ok tx =>
      err <- submitLoop 10 0 tx None ;;
      match err with
      | Some e => ret (false, Some e)
      | None => pollStaked fuel
      end
    end
  end.

(** One turn of the [for] of the goroutine that [ensureStaked]
    starts.  The boolean is [true] when the turn ends in the
    goroutine's [return]; the error is the value of [returnErr]
    after the turn. *)
Definition ensureStaked_iteration (fuel : nat)
    (nodeType_ : StakingNodeType) (returnErr : option error)
    : M W (bool * option error) :=
  r <- call (activeParticipantsQuerier_InProbation W E (minerAddr d))
            EvInProbation ;;
  match r with
  | Err _ =>
    log Error "Failed to check if participant is currently in probation... Rechecking again in few seconds..." ;;;
    sleep E 3 ;;;
    ret (false, returnErr)
  | Ok inProbation =>
    if inProbation then
      log Warn "Participant (node/miner) is currently in probation.... Rechecking again in few seconds..." ;;;
      sleep E 5 ;;;
      ret (false, returnErr)
    else
      r <- call (activeParticipantsQuerier_Contains W E (minerAddr d) nodeType_)
                (EvContains nodeType_) ;;
      match r with
      | Err _ =>
        log Error "Failed to check if participant exists... Rechecking again in few seconds..." ;;;
        sleep E 3 ;;;
        ret (false, returnErr)
      | Ok staked =>
        if staked then
          log Info "Node is successfully staked... Rechecking in few seconds for potential changes..." ;;;
          sleep E 3 ;;;
          ret (false, returnErr)
        else
          match nodeType d with
          | BootstrapSequencer =>
            e <- stakeParticipant fuel false Sequencer ;;
            ret (false, e)
          | Sequencer =>
            '(staked, e) <- stakeParticipantThroughTxPool fuel ;;
            ret (staked, e)
          | WatchTower =>
            '(staked, e) <- stakeParticipantThroughTxPool fuel ;;
            ret (staked, e)
          | OtherMechanism _ => ret (false, returnErr)
          end
      end
  end.

(** The goroutine of [ensureStaked]: [fuel] turns of its [for] are
    observed. *)
Fixpoint ensureStaked_goroutine (fuel : nat)
    (nodeType_ : StakingNodeType) (returnErr : option error)
    : M W (option error) :=
  match fuel with
  | O => pending
  | S n =>
    '(returned, returnErr') <- ensureStaked_iteration n nodeType_ returnErr ;;
    if returned then ret returnErr'
    else ensureStaked_goroutine n nodeType_ returnErr'
  end.

End Bridge.

End avail.

(* ------------------------------------------------------------------ *)
(** * Vocabulary of the codec's contract                               *)
(* ------------------------------------------------------------------ *)

Module codec.

Import avail_types.

(** The two tests at the head of the loop of [FromAvail]: an extrinsic
    is a target when neither of them skips it. *)
Definition matches (appID : UCompact) (callIdx : CallIndex)
    (x : Extrinsic) : bool :=
  (Int64 (AppID (Signature x)) =? Int64 appID)
  && CallIndex_eqb (CallIndex_ (Method x)) callIdx.

(** How far the three decoding stages get on the arguments of an
    extrinsic: the bytes or the [Blob] do not decode, the [Blob]'s
    [Data] does not decode as a settlement block, or all three
    succeed. *)
Inductive Decoding : Type :=
| OuterFailure
| PayloadFailure (e : ExtError)
| Decoded (blk : types.Block).

Definition decode (D : block.Decoders) (x : Extrinsic) : Decoding :=
  match block.codec_Decode D (Args (Method x)) with
  | Err _ => OuterFailure
  | Ok bs =>
    match block.Blob_Decode D bs with
    | Err _ => OuterFailure
    | Ok blob =>
      match block.UnmarshalRLP D (block.Data blob) with
      | Err e => PayloadFailure e
      | Ok blk => Decoded blk
      end
    end
  end.

Definition is_decoded (r : Decoding) : bool :=
  match r with Decoded _ => true | _ => false end.

Definition is_payload_failure (r : Decoding) : bool :=
  match r with PayloadFailure _ => true | _ => false end.

(** A target whose payload is not a settlement block. *)
Definition corrupt (D : block.Decoders) (appID : UCompact)
    (callIdx : CallIndex) (x : Extrinsic) : bool :=
  matches appID callIdx x && is_payload_failure (decode D x).

(** The settlement blocks of the targets that decode, in the order of
    the extrinsics. *)
Fixpoint extracted (D : block.Decoders) (appID : UCompact)
    (callIdx : CallIndex) (xs : list Extrinsic) : list types.Block :=
  match xs with
  | [] => []
  | x :: rest =>
    match matches appID callIdx x, decode D x with
    | true, Decoded blk => blk :: extracted D appID callIdx rest
    | _, _ => extracted D appID callIdx rest
    end
  end.

(** N: the number of targets.  K: the number of targets that decode. *)
Definition count_targets (appID : UCompact) (callIdx : CallIndex)
    (xs : list Extrinsic) : nat :=
  List.length (filter (matches appID callIdx) xs).

Definition count_decoded (D : block.Decoders) (appID : UCompact)
    (callIdx : CallIndex) (xs : list Extrinsic) : nat :=
  List.length
    (filter (fun x => matches appID callIdx x && is_decoded (decode D x)) xs).

End codec.

(* ------------------------------------------------------------------ *)
(** * Vocabulary of the syncer's contract                              *)
(* ------------------------------------------------------------------ *)

Module resume.

Import avail.

(** The DA block [availBlk] embeds the settlement block numbered [M]:
    the codec returns blocks for it, and one of them has that
    number. *)
Definition embeds (D : block.Decoders) (d : Avail)
    (callIdx : avail_types.CallIndex)
    (availBlk : avail_types.SignedBlock) (M : Z) : Prop :=
  exists l b,
    block.FromAvail D availBlk (availAppID d) callIdx = (Some l, None)
    /\ In b l /\ types.Number (types.Header_ b) = M.

(** The DA block carries the settlement block numbered [M]: it is the
    payload of one of its target extrinsics. *)
Definition carries (D : block.Decoders) (d : Avail)
    (callIdx : avail_types.CallIndex)
    (availBlk : avail_types.SignedBlock) (M : Z) : Prop :=
  exists b,
    In b (codec.extracted D (availAppID d) callIdx
            (avail_types.Extrinsics (avail_types.Block_ availBlk)))
    /\ types.Number (types.Header_ b) = M.

(** No target extrinsic of the DA block fails at the settlement-block
    stage. *)
Definition intact (D : block.Decoders) (d : Avail)
    (callIdx : avail_types.CallIndex)
    (availBlk : avail_types.SignedBlock) : Prop :=
  forall x,
    In x (avail_types.Extrinsics (avail_types.Block_ availBlk)) ->
    codec.corrupt D (availAppID d) callIdx x = false.

Definition found (r : Z * bool * option error) : bool := snd (fst r).


(** Events of the syncer that touch a DA block of the stream or a
    settlement block taken from it. *)
Definition processes_block (ev : Event) : bool :=
  match ev with
  | EvBlockStream _ | EvStreamClose | EvSelect _ | EvUnStake _
  | EvIsFraudProofBlock _ _ | EvCheck _ _ | EvWriteBlock _ _ _ => true
  | _ => false
  end.

Definition is_log (ev : Event) : bool :=
  match ev with EvLog _ _ => true | _ => false end.

(** The events of the fraud gate, of the validator and of the commit. *)
Definition is_gate_event (ev : Event) : bool :=
  match ev with
  | EvIsFraudProofBlock _ _ | EvCheck _ _ | EvWriteBlock _ _ _ => true
  | _ => false
  end.

(** Traces in which the three are only ever used in one of the three
    ways the loop over the extracted blocks uses them: the gate flags
    the block and nothing follows for it; the gate clears it and the
    validator rejects it; the gate clears it, the validator accepts it
    and it is written. *)
Inductive gated : Trace -> Prop :=
| gated_nil : gated []
| gated_other ev t :
    is_gate_event ev = false -> gated t -> gated (ev :: t)
| gated_flagged b t :
    gated t -> gated (EvIsFraudProofBlock b true :: t)
| gated_rejected b e t :
    gated t ->
    gated (EvIsFraudProofBlock b false :: EvCheck b (Some e) :: t)
| gated_committed b logs source r t :
    Forall (fun ev => is_log ev = true) logs ->
    gated t ->
    gated (EvIsFraudProofBlock b false :: EvCheck b None
           :: logs ++ EvWriteBlock b source r :: t).






Definition unstake_log (r : option ExtError) : Trace :=
  match r with
  | Some _ => [EvLog Error "failed to unstake the node"]
  | None => []
  end.

(** The events one extracted block leaves. *)
Definition edge_trace (d : Avail) (edgeBlk : types.Block) (fraud : bool)
    (err werr : option ExtError) : Trace :=
  if fraud then [EvIsFraudProofBlock edgeBlk true]
  else
    match err with
    | Some e =>
      [EvIsFraudProofBlock edgeBlk false; EvCheck edgeBlk (Some e);
       EvLog Warn "failed to validate edge block received from avail"]
    | None =>
      EvIsFraudProofBlock edgeBlk false :: EvCheck edgeBlk None
      :: (if Z.of_nat (List.length (types.Transactions edgeBlk)) >? 0
          then [EvLog Warn "WE HAVE TRANSACTIONS INSIDE"] else [])
      ++ EvWriteBlock edgeBlk (nodeType d) werr
      :: match werr with
         | Some _ =>
           [EvLog Warn "failed to write edge block received from avail"]
         | None => []
         end
    end.

Definition edge_event (ev : Event) : bool :=
  is_gate_event ev || is_log ev.


End resume.

(* ------------------------------------------------------------------ *)
(** * Vocabulary of the staking contract                               *)
(* ------------------------------------------------------------------ *)

Module pool.

Import avail.

(** The answers of the transaction pool to the submissions of a run, in
    order. *)
Fixpoint attempts (t : Trace) : list (option ExtError) :=
  match t with
  | [] => []
  | EvAddTx _ r :: t' => r :: attempts t'
  | _ :: t' => attempts t'
  end.

Definition is_backoff (ev : Event) : bool :=
  match ev with EvSleep s => s =? 2 | _ => false end.

(** The 2-second sleeps of a run. *)
Definition backoffs (t : Trace) : nat := List.length (filter is_backoff t).

Definition is_submission (ev : Event) : bool :=
  match ev with
  | EvAddTx _ _ => true
  | EvSleep s => s =? 2
  | _ => false
  end.

Definition is_query (ev : Event) : bool :=
  match ev with EvContains _ _ => true | _ => false end.

Definition is_query_error (ev : Event) : bool :=
  match ev with EvContains _ (Err _) => true | _ => false end.

Definition is_probation (ev : Event) : bool :=
  match ev with EvInProbation _ => true | _ => false end.


(** The error a run of failed submissions leaves in [err]. *)
Definition last_error (err : option error) (es : list ExtError)
    : option error :=
  fold_left (fun _ e => Some (ErrExternal e)) es err.

(** How the poll that follows a submission ends. *)
Inductive PollEnd : Type :=
| PollObserved            (* still polling when the observation ends *)
| PollError (e : ExtError)
| PollStaked.

Definition poll_log : Event :=
  EvLog Info "Submitted transaction, waiting for staking contract update...".

(** [k] rounds of: query, answer "not staked", sleep 3 s. *)
Fixpoint poll_rounds (d : Avail) (k : nat) : Trace :=
  match k with
  | O => []
  | S k' =>
    poll_log :: EvContains (staking_NodeType (nodeType d)) (Ok false)
    :: EvSleep 3 :: poll_rounds d k'
  end.

Definition poll_end (d : Avail) (en : PollEnd) : Trace :=
  match en with
  | PollObserved => []
  | PollError e =>
    [poll_log; EvContains (staking_NodeType (nodeType d)) (Err e)]
  | PollStaked =>
    [poll_log; EvContains (staking_NodeType (nodeType d)) (Ok true);
     EvSleep 3]
  end.

Definition poll_outcome {W} (en : PollEnd) (t : Trace) (w : W)
    : Outcome W (bool * option error) :=
  match en with
  | PollObserved => Pending t w
  | PollError e => Returned (false, Some (ErrExternal e)) t w
  | PollStaked => Returned (true, None) t w
  end.

(** Events that are neither a submission, nor a status query, nor a
    probation query. *)
Definition calm (ev : Event) : Prop :=
  is_submission ev = false /\ is_query ev = false
  /\ is_probation ev = false.

End pool.

(* ------------------------------------------------------------------ *)
(** * Concrete collaborators used to run the model                     *)
(* ------------------------------------------------------------------ *)

Module fixtures.

Import avail_types.

Definition byte_Z (b : Byte.byte) : Z := Z.of_N (Byte.to_N b).

Definition edgeBlock (number : Z) : types.Block :=
  types.mkBlock (types.mkHeader number [] []) [].

(** Toy encodings: the argument bytes carry one length byte in front of
    the blob; a blob is the magic byte [0xaa] in front of its data; a
    settlement block is encoded as the single byte of its number. *)
Definition toyDecoders : block.Decoders :=
  block.mkDecoders
    (fun bs => match bs with
               | [] => Err "scale: unexpected end of input"%string
               | _ :: rest => Ok rest
               end)
    (fun bs => match bs with
               | Byte.xaa :: data => Ok (block.mkBlob data)
               | _ => Err "blob: bad magic"%string
               end)
    (fun data => match data with
                 | [n] => Ok (edgeBlock (byte_Z n))
                 | _ => Err "rlp: value size exceeds available input length"%string
                 end).

Definition callA : CallIndex := mkCallIndex 29 1.
Definition callB : CallIndex := mkCallIndex 29 2.
Definition appA : UCompact := 7.
Definition appB : UCompact := 8.

Definition extrinsic (app : UCompact) (c : CallIndex) (args : bytes)
    : Extrinsic :=
  mkExtrinsic (mkSignature app) (mkCall c args).

Definition validPayload (n : Byte.byte) : bytes := [Byte.x02; Byte.xaa; n].
Definition corruptPayload : bytes := [Byte.x03; Byte.xaa; Byte.x01; Byte.x02].
Definition badBlob : bytes := [Byte.x01; Byte.x00].

Definition daBlock (number : Z) (xs : list Extrinsic) : SignedBlock :=
  mkSignedBlock (mkBlock (mkHeader number) xs).

(** The scenario of the specification: a valid target, an extrinsic of
    another application, a corrupt target. *)
Definition scenarioBlock : SignedBlock :=
  daBlock 12
    [ extrinsic appA callA (validPayload Byte.x05);
      extrinsic appB callA (validPayload Byte.x06);
      extrinsic appA callA corruptPayload ].

(** Targets that decode, mixed with extrinsics that are skipped. *)
Definition mixedBlock : SignedBlock :=
  daBlock 13
    [ extrinsic appA callA (validPayload Byte.x05);
      extrinsic appA callB (validPayload Byte.x09);
      extrinsic appA callA badBlob;
      extrinsic appB callA corruptPayload;
      extrinsic appA callA [];
      extrinsic appA callA (validPayload Byte.x06) ].

(** Nothing for the target application. *)
Definition foreignBlock : SignedBlock :=
  daBlock 14
    [ extrinsic appB callA (validPayload Byte.x05);
      extrinsic appA callB (validPayload Byte.x06);
      extrinsic appA callA badBlob ].

(* A scripted world for the collaborators. *)

Import avail.

Record World : Type := mkWorld {
  head : types.Header;                  (* head of the local chain *)
  chain : list types.Block;             (* blocks written, newest first *)
  history : list SignedBlock;           (* the DA chain, oldest first *)
  latest : result avail_types.Header;   (* answer of GetLatestHeader *)
  callIndex : CallIndex;                (* answer of FindCallIndex *)
  flagged : list Z;                     (* numbers the fraud gate flags *)
  rejected : list Z;                    (* numbers the validator rejects *)
  unstake : option ExtError;            (* answer of UnStake *)
  probation : list (result bool);       (* answers of InProbation, in turn *)
  contains : list (result bool);        (* answers of Contains, in turn *)
  addTx : list (option ExtError);       (* answers of AddTx, in turn *)
  conns : list Z;                       (* bootnode connection counts *)
  clock : Z                             (* seconds slept so far *)
}.

Definition commit (b : types.Block) (w : World) : World :=
  mkWorld (types.Header_ b) (b :: chain w) (history w) (latest w)
          (callIndex w) (flagged w) (rejected w) (unstake w)
          (probation w) (contains w) (addTx w) (conns w) (clock w).

Definition next_probation (w : World) : World :=
  mkWorld (head w) (chain w) (history w) (latest w) (callIndex w)
          (flagged w) (rejected w) (unstake w)
          (tl (probation w)) (contains w) (addTx w) (conns w) (clock w).

Definition next_contains (w : World) : World :=
  mkWorld (head w) (chain w) (history w) (latest w) (callIndex w)
          (flagged w) (rejected w) (unstake w)
          (probation w) (tl (contains w)) (addTx w) (conns w) (clock w).

Definition next_addTx (w : World) : World :=
  mkWorld (head w) (chain w) (history w) (latest w) (callIndex w)
          (flagged w) (rejected w) (unstake w)
          (probation w) (contains w) (tl (addTx w)) (conns w) (clock w).

Definition next_conns (w : World) : World :=
  mkWorld (head w) (chain w) (history w) (latest w) (callIndex w)
          (flagged w) (rejected w) (unstake w)
          (probation w) (contains w) (addTx w) (tl (conns w)) (clock w).

Definition tick (seconds : Z) (w : World) : World :=
  mkWorld (head w) (chain w) (history w) (latest w) (callIndex w)
          (flagged w) (rejected w) (unstake w)
          (probation w) (contains w) (addTx w) (conns w)
          (clock w + seconds).

Definition mem (n : Z) (l : list Z) : bool := existsb (Z.eqb n) l.

Definition error_text (e : error) : ExtError :=
  match e with
  | ErrNoExtrinsicFound => "no compatible extrinsic found"%string
  | ErrExternal s => s
  end.

(** Modelled from the spec: [SearchBlock] of the DA client is not among
    the sources.  The specification has it as a range-search primitive
    that is handed a predicate and whose strategy is left open; this
    one scans the DA blocks in order, hands each to the predicate with
    the target and the call index, gives up with the predicate's error
    if it reports one, and returns the first block the predicate
    reports as a match. *)
Fixpoint linearSearch (blks : list SignedBlock) (target : Z)
    (callIdx : CallIndex) (f : SearchFunc) : result SignedBlock :=
  match blks with
  | [] => Err "block not found"%string
  | b :: rest =>
    match f b target callIdx with
    | (_, _, Some e) => Err (error_text e)
    | (_, true, None) => Ok b
    | (_, false, None) => linearSearch rest target callIdx f
    end
  end.

(** The DA blocks a search from [offset] looks at. *)
Definition searched (offset target : Z) (w : World) : list SignedBlock :=
  filter (fun b => offset <=? Number (Header_ (Block_ b))) (history w).

Definition toyTx : types.Transaction := [Byte.x53; Byte.x54].

Definition toyEnv : Env World :=
  mkEnv World
    (fun w => (head w, w))
    (fun b _ w => (None, commit b w))
    (fun offset target f w =>
       (linearSearch (searched offset target w) target (callIndex w) f, w))
    (fun w => (latest w, w))
    (fun w => (Ok (callIndex w), w))
    (fun _ w => w)
    (fun w => w)
    (fun _ w => (unstake w, w))
    (fun b w => (mem (types.Number (types.Header_ b)) (flagged w), w))
    (fun b w =>
       (if mem (types.Number (types.Header_ b)) (rejected w)
        then Some "invalid block"%string else None, w))
    (fun _ w => (hd (Ok false) (probation w), next_probation w))
    (fun _ _ w => (hd (Ok false) (contains w), next_contains w))
    (fun w => (hd 1 (conns w), next_conns w))
    (fun _ _ _ _ w => (Ok toyTx, w))
    (fun tx _ w => (Ok (Byte.xff :: tx), w))
    (fun _ w => (hd None (addTx w), next_addTx w))
    (fun w => (None, w))
    (fun _ w => w)
    (fun _ w => w)
    (fun _ w => w)
    (fun w => (Ok (edgeBlock (types.Number (head w) + 1)), w))
    (fun _ w => (None, w))
    tick
    (10 ^ 18).

(** A node whose local head is settlement block 6, which DA block 13
    ([mixedBlock]) embeds. *)
Definition resumeWorld : World :=
  mkWorld (types.mkHeader 6 [] []) []
          [foreignBlock; mixedBlock]
          (Ok (mkHeader 13)) callA [] [] None [] [] [] [] 0.


(** A node whose local head is settlement block 6.  DA block 13
    ([mixedBlock]) embeds it, and DA block 12 before it has a corrupt
    target. *)
Definition brokenHistoryWorld : World :=
  mkWorld (types.mkHeader 6 [] []) []
          [scenarioBlock; mixedBlock]
          (Ok (mkHeader 13)) callA [] [] None [] [] [] [] 0.

(** DA block 13 with three settlement blocks; the world below has the
    fraud gate flag block 5 and the validator reject block 6. *)
Definition gateBlock : SignedBlock :=
  daBlock 13
    [ extrinsic appA callA (validPayload Byte.x05);
      extrinsic appA callA (validPayload Byte.x06);
      extrinsic appA callA (validPayload Byte.x07) ].

Definition gateWorld : World :=
  mkWorld (types.mkHeader 0 [] []) [] [] (Ok (mkHeader 13)) callA
          [5] [6] None [] [] [] [] 0.

(** The DA client cannot tell the latest header. *)
Definition offlineWorld : World :=
  mkWorld (types.mkHeader 0 [] []) [] []
          (Err "connection refused"%string) callA
          [] [] None [] [] [] [] 0.





(** The transaction pool refuses every submission. *)
Definition fullPoolWorld : World :=
  mkWorld (types.mkHeader 0 [] []) [] [] (Ok (mkHeader 13)) callA
          [] [] None [] []
          [Some "txpool: busy"; Some "txpool: busy"; Some "txpool: busy";
           Some "txpool: busy"; Some "txpool: busy"; Some "txpool: busy";
           Some "txpool: busy"; Some "txpool: busy"; Some "txpool: busy";
           Some "txpool: full"]%string
          [0; 1] 0.

(** The pool takes the transaction at the third attempt; the querier
    answers "not staked" once and then fails. *)
Definition flakyQuerierWorld : World :=
  mkWorld (types.mkHeader 0 [] []) [] [] (Ok (mkHeader 13)) callA
          [] [] None []
          [Ok false; Err "rpc: connection reset"%string; Ok true]
          [Some "txpool: busy"%string; Some "txpool: busy"%string; None]
          [1] 0.

(** The node is not staked; after its submission the querier answers
    "not staked" once more and then "staked". *)
Definition joiningWorld : World :=
  mkWorld (types.mkHeader 0 [] []) [] [] (Ok (mkHeader 13)) callA
          [] [] None [Ok false]
          [Ok false; Ok false; Ok true]
          [None] [1] 0.

(** What the pool path does in [flakyQuerierWorld] before the query
    that fails. *)
Definition beforeQueryError : Trace :=
  [EvGetBootnodeConnCount 1; EvSleep 5;
   EvStakeTx Sequencer (Ok toyTx);
   EvSignTx (Ok (Byte.xff :: toyTx));
   EvAddTx (Byte.xff :: toyTx) (Some "txpool: busy"%string);
   EvLog Error "Failure to add staking tx to the txpool err: %s";
   EvSleep 2;
   EvAddTx (Byte.xff :: toyTx) (Some "txpool: busy"%string);
   EvLog Error "Failure to add staking tx to the txpool err: %s";
   EvSleep 2;
   EvAddTx (Byte.xff :: toyTx) None;
   pool.poll_log;
   EvContains (staking_NodeType Sequencer) (Ok false);
   EvSleep 3;
   pool.poll_log].


(** A bootstrap node that is not staked at first and is staked from then
    on. *)
Definition bootstrapWorld : World :=
  mkWorld (types.mkHeader 0 [] []) [] [] (Ok (mkHeader 13)) callA
          [] [] None []
          [Ok false; Ok true; Ok true; Ok true]
          [] [] 0.

Definition sequencerNode : Avail :=
  mkAvail Sequencer [Byte.x01] [Byte.x02] appA true.

Definition bootstrapNode : Avail :=
  mkAvail BootstrapSequencer [Byte.x01] [Byte.x02] appA true.

End fixtures.

(* ------------------------------------------------------------------ *)
(** * Vocabulary for the order of the syncer's work                    *)
(* ------------------------------------------------------------------ *)

Module sync.

Import avail.

(** The test by which the loop of [syncNode] skips a DA block: the codec
    returned no block and an error other than the sentinel. *)
Definition unexpected (r : option (list types.Block) * option error) : bool :=
  let '(edgeBlks, err) := r in
  if block.len edgeBlks =? 0 then
    match err with
    | Some e => negb (error_eqb e ErrNoExtrinsicFound)
    | None => false
    end
  else false.

Definition blocks_of (r : option (list types.Block) * option error)
    : list types.Block :=
  match fst r with Some l => l | None => [] end.

Definition number (blk : avail_types.SignedBlock) : Z :=
  avail_types.Number (avail_types.Header_ (avail_types.Block_ blk)).

(** The settlement blocks the loop of [syncNode] takes from what its
    [select] yields: those of each DA block received, in order, leaving
    out the DA blocks it skips, up to the DA block that carries the
    number of the latest header or to the shutdown signal. *)
Fixpoint examined (D : block.Decoders) (d : Avail)
    (hdr : avail_types.Header) (callIdx : avail_types.CallIndex)
    (sel : list Select) : list types.Block :=
  match sel with
  | [] => []
  | CloseCh :: _ => []
  | RecvBlock blk :: rest =>
    let r := block.FromAvail D blk (availAppID d) callIdx in
    if unexpected r then examined D d hdr callIdx rest
    else
      blocks_of r
      ++ (if avail_types.Number hdr =? number blk then []
          else examined D d hdr callIdx rest)
  end.

(** The blocks handed to the fraud gate in a run, and the blocks handed
    to [WriteBlock], in order. *)
Fixpoint gate_queries (t : Trace) : list types.Block :=
  match t with
  | [] => []
  | EvIsFraudProofBlock b _ :: t' => b :: gate_queries t'
  | _ :: t' => gate_queries t'
  end.

Fixpoint writes (t : Trace) : list types.Block :=
  match t with
  | [] => []
  | EvWriteBlock b _ _ :: t' => b :: writes t'
  | _ :: t' => writes t'
  end.

Inductive subseq {A : Type} : list A -> list A -> Prop :=
| subseq_nil : subseq [] []
| subseq_skip x l1 l2 : subseq l1 l2 -> subseq l1 (x :: l2)
| subseq_take x l1 l2 : subseq l1 l2 -> subseq (x :: l1) (x :: l2).

Definition is_open (ev : Event) : bool :=
  match ev with EvBlockStream _ => true | _ => false end.

Definition is_stream_close (ev : Event) : bool :=
  match ev with EvStreamClose => true | _ => false end.

Definition not_stream (ev : Event) : Prop :=
  is_open ev = false /\ is_stream_close ev = false.

Definition opens (t : Trace) : nat := List.length (filter is_open t).
Definition closes (t : Trace) : nat := List.length (filter is_stream_close t).

(** A DA block at which the loop of [syncNode] does not end: it is
    skipped, or its number is not that of the latest header. *)
Definition passes (D : block.Decoders) (d : Avail)
    (hdr : avail_types.Header) (callIdx : avail_types.CallIndex)
    (blk : avail_types.SignedBlock) : bool :=
  unexpected (block.FromAvail D blk (availAppID d) callIdx)
  || negb (avail_types.Number hdr =? number blk).

End sync.

(* ------------------------------------------------------------------ *)
(** * Further scripted collaborators                                   *)
(* ------------------------------------------------------------------ *)

Module scenarios.

Import avail_types.
Import avail.
Import fixtures.

(** The scripted collaborators with a DA client that cannot resolve the
    call index. *)
Definition noCallIndexEnv : Env World :=
  mkEnv World
    (blockchain_Header World toyEnv)
    (blockchain_WriteBlock World toyEnv)
    (availClient_SearchBlock World toyEnv)
    (availClient_GetLatestHeader World toyEnv)
    (fun w => (Err "metadata: call not found"%string, w))
    (availClient_BlockStream World toyEnv)
    (availBlockStream_Close World toyEnv)
    (stakingNode_UnStake World toyEnv)
    (fraudResolver_IsFraudProofBlock World toyEnv)
    (validator_Check World toyEnv)
    (activeParticipantsQuerier_InProbation World toyEnv)
    (activeParticipantsQuerier_Contains World toyEnv)
    (network_GetBootnodeConnCount World toyEnv)
    (staking_StakeTx World toyEnv)
    (txSigner_SignTx World toyEnv)
    (txpool_AddTx World toyEnv)
    (blockBuilderFactory_FromBlockchainHead World toyEnv)
    (bb_SetCoinbaseAddress World toyEnv)
    (bb_SignWith World toyEnv)
    (bb_AddTransactions World toyEnv)
    (bb_Build World toyEnv)
    (availSender_SendAndWaitForStatus World toyEnv)
    (time_Sleep World toyEnv)
    (common_ETH World toyEnv).

(** The local chain is at block 6 and the DA history holds nothing that
    embeds it. *)
Definition lostWorld : World :=
  mkWorld (types.mkHeader 6 [] []) [] [foreignBlock]
          (Ok (mkHeader 13)) callA [] [] None [] [] [] [] 0.

End scenarios.

(* ------------------------------------------------------------------ *)
(** * The wait of the sequencer worker                                 *)
(* ------------------------------------------------------------------ *)

Module worker.

Import avail.
Local Open Scope bridge_scope.

Section Worker.

Context {W : Type}.
Variable E : Env W.

(** [activeParticipantsQuerier.Contains(nodeAddr)] of the querier of
    active sequencers that the caller hands in.  Its calls are traced
    as status queries for the sequencer type. *)
Variable activeSequencers_Contains : types.Address -> W -> result bool * W.

(** [waitForStakedSequencer]: [fuel] turns of its [for] are observed. *)
Fixpoint waitForStakedSequencer (fuel : nat) (nodeAddr : types.Address)
    : M W bool :=
  match fuel with
  | O => pending
  | S n =>
    r <- call (activeSequencers_Contains nodeAddr)
              (EvContains staking_Sequencer) ;;
    match r with
    | Err _ =>
      log Error "failed to check if my account is among active staked sequencers. Retrying in few seconds..." ;;;
      sleep E 3 ;;;
      waitForStakedSequencer n nodeAddr
    | Ok sequencerStaked =>
      if negb sequencerStaked then
        log Warn "my account is not among active staked sequencers. Retrying in few seconds..." ;;;
        sleep E 3 ;;;
        waitForStakedSequencer n nodeAddr
      else ret true
    end
  end.

End Worker.

End worker.

(* ------------------------------------------------------------------ *)
(** * Vocabulary for the steps of staking                              *)
(* ------------------------------------------------------------------ *)

Module stake.

Import avail.

(** The events of a staking attempt, through a block or through the
    pool. *)
Definition is_staking_step (ev : Event) : bool :=
  match ev with
  | EvStakeTx _ _ | EvSignTx _ | EvAddTx _ _ | EvFromBlockchainHead _
  | EvSetCoinbaseAddress _ | EvSignWith _ | EvAddTransactions _
  | EvBuild _ | EvSendAndWaitForStatus _ _ | EvWriteBlock _ _ _
  | EvGetBootnodeConnCount _ => true
  | _ => false
  end.

(** What the bootstrap role keeps to: stake transactions for the role
    [Sequencer], blocks written under its own role, and no use of the
    transaction pool or of the peer count. *)
Definition direct_discipline (ev : Event) : Prop :=
  match ev with
  | EvStakeTx r _ => r = Sequencer
  | EvWriteBlock _ source _ => source = BootstrapSequencer
  | EvAddTx _ _ | EvGetBootnodeConnCount _ => False
  | _ => True
  end.

(** What the sequencer and watchtower roles keep to: stake transactions
    for their own role, and no block built, sent to the DA chain or
    written to the local chain. *)
Definition pool_discipline (d : Avail) (ev : Event) : Prop :=
  match ev with
  | EvStakeTx r _ => r = nodeType d
  | EvFromBlockchainHead _ | EvSetCoinbaseAddress _ | EvSignWith _
  | EvAddTransactions _ | EvBuild _ | EvSendAndWaitForStatus _ _
  | EvWriteBlock _ _ _ => False
  | _ => True
  end.

(** The answers of the status queries of a run, and its 3-second
    sleeps. *)
Fixpoint answers (t : Trace) : list (result bool) :=
  match t with
  | [] => []
  | EvContains _ r :: t' => r :: answers t'
  | _ :: t' => answers t'
  end.

Definition is_nap (ev : Event) : bool :=
  match ev with EvSleep s => s =? 3 | _ => false end.

Definition naps (t : Trace) : nat := List.length (filter is_nap t).

Definition staked_answer (r : result bool) : bool :=
  match r with Ok true => true | _ => false end.

(** The wait for a bootnode connection: each count that is not positive
    is followed by a sleep of 1 s. *)
Fixpoint peer_wait (cs : list Z) : Trace :=
  match cs with
  | [] => []
  | c :: cs' => EvGetBootnodeConnCount c :: EvSleep 1 :: peer_wait cs'
  end.

(** What lets the pool path past its wait: nothing on a node without a
    network, one positive count on a node with one. *)
Definition peer_gate (d : Avail) (cs : list Z) (gate : Trace) : Prop :=
  if hasNetwork d
  then exists c, 0 < c /\ gate = [EvGetBootnodeConnCount c]
  else gate = [] /\ cs = [].

End stake.

(* ------------------------------------------------------------------ *)
(** * The block codec                                                  *)
(* ------------------------------------------------------------------ *)

Section CodecFacts.

Import avail_types.
Variable D : block.Decoders.
Variable appID : UCompact.
Variable callIdx : CallIndex.

(** One turn of the loop of [FromAvail], by the fate of the extrinsic. *)
Lemma FromAvail_loop_cons (x : Extrinsic) (rest : list Extrinsic)
    (acc : list types.Block) :
  block.FromAvail_loop D (x :: rest) appID callIdx acc =
  if codec.matches appID callIdx x then
    match codec.decode D x with
    | codec.OuterFailure => block.FromAvail_loop D rest appID callIdx acc
    | codec.PayloadFailure e => inr e
    | codec.Decoded blk =>
      block.FromAvail_loop D rest appID callIdx (acc ++ [blk])
    end
  else block.FromAvail_loop D rest appID callIdx acc.
Proof.
  unfold codec.matches, codec.decode. simpl.
  destruct (Int64 (AppID (Signature x)) =? Int64 appID); simpl; [|reflexivity].
  destruct (CallIndex_eqb (CallIndex_ (Method x)) callIdx); simpl; [|reflexivity].
  destruct (block.codec_Decode D (Args (Method x))) as [bs|]; [|reflexivity].
  destruct (block.Blob_Decode D bs) as [blob|]; [|reflexivity].
  destruct (block.UnmarshalRLP D (block.Data blob)); reflexivity.
Qed.

(** Without a corrupt target the loop runs to its end and has appended
    the decoded blocks in the order of the extrinsics. *)
Lemma FromAvail_loop_clean (xs : list Extrinsic) :
  forall acc,
    (forall x, In x xs -> codec.corrupt D appID callIdx x = false) ->
    block.FromAvail_loop D xs appID callIdx acc =
    inl (acc ++ codec.extracted D appID callIdx xs).
Proof.
  induction xs as [|x rest IH]; intros acc Hclean.
  - simpl. now rewrite app_nil_r.
  - rewrite FromAvail_loop_cons.
    assert (Hx := Hclean x (or_introl eq_refl)).
    assert (Hrest : forall y, In y rest -> codec.corrupt D appID callIdx y = false)
      by (intros y Hy; apply Hclean; now right).
    unfold codec.corrupt in Hx. simpl.
    destruct (codec.matches appID callIdx x); [|now apply IH].
    destruct (codec.decode D x) as [|e|blk]; simpl in Hx.
    + now apply IH.
    + discriminate.
    + rewrite IH by assumption. now rewrite <- app_assoc.
Qed.

(** The first corrupt target ends the loop with its error, whatever
    was collected before and whatever follows. *)
Lemma FromAvail_loop_first_corrupt (pre : list Extrinsic) :
  forall x post e acc,
    (forall y, In y pre -> codec.corrupt D appID callIdx y = false) ->
    codec.matches appID callIdx x = true ->
    codec.decode D x = codec.PayloadFailure e ->
    block.FromAvail_loop D (pre ++ x :: post) appID callIdx acc = inr e.
Proof.
  induction pre as [|y pre IH]; intros x post e acc Hpre Hm Hd.
  - simpl app. rewrite FromAvail_loop_cons, Hm, Hd. reflexivity.
  - simpl app. rewrite FromAvail_loop_cons.
    assert (Hy := Hpre y (or_introl eq_refl)).
    assert (Hpre' : forall z, In z pre -> codec.corrupt D appID callIdx z = false)
      by (intros z Hz; apply Hpre; now right).
    unfold codec.corrupt in Hy.
    destruct (codec.matches appID callIdx y); [|now apply IH].
    destruct (codec.decode D y); simpl in Hy;
      [now apply IH | discriminate | now apply IH].
Qed.

(** A list of extrinsics with a corrupt target splits at the first
    one. *)
Lemma first_corrupt_split (xs : list Extrinsic) :
  (exists x, In x xs /\ codec.corrupt D appID callIdx x = true) ->
  exists pre y post,
    xs = pre ++ y :: post /\
    (forall z, In z pre -> codec.corrupt D appID callIdx z = false) /\
    codec.corrupt D appID callIdx y = true.
Proof.
  induction xs as [|a xs IH]; intros [x [Hin Hc]].
  - destruct Hin.
  - destruct (codec.corrupt D appID callIdx a) eqn:Ha.
    + exists [], a, xs. repeat split; auto. intros z [].
    + destruct Hin as [->|Hin]; [congruence|].
      destruct (IH (ex_intro _ x (conj Hin Hc))) as (pre & y & post & -> & Hpre & Hy).
      exists (a :: pre), y, post. repeat split; auto.
      intros z [<-|Hz]; auto.
Qed.

Lemma extracted_length (xs : list Extrinsic) :
  List.length (codec.extracted D appID callIdx xs) =
  codec.count_decoded D appID callIdx xs.
Proof.
  unfold codec.count_decoded.
  induction xs as [|x rest IH]; [reflexivity|]. simpl.
  destruct (codec.matches appID callIdx x); simpl; [|exact IH].
  destruct (codec.decode D x); simpl; auto.
Qed.

Lemma count_decoded_le_targets (xs : list Extrinsic) :
  (codec.count_decoded D appID callIdx xs <=
   codec.count_targets appID callIdx xs)%nat.
Proof.
  unfold codec.count_decoded, codec.count_targets.
  induction xs as [|x rest IH]; [apply le_n|]. simpl.
  destruct (codec.matches appID callIdx x); simpl; [|exact IH].
  destruct (codec.is_decoded (codec.decode D x)); simpl; lia.
Qed.

End CodecFacts.

Section CodecMore.

Import avail_types.
Variable D : block.Decoders.
Variable appID : UCompact.
Variable callIdx : CallIndex.

Lemma corrupt_dec (xs : list Extrinsic) :
  (exists x, In x xs /\ codec.corrupt D appID callIdx x = true)
  \/ (forall x, In x xs -> codec.corrupt D appID callIdx x = false).
Proof.
  induction xs as [|a xs IH].
  - right. intros x [].
  - destruct (codec.corrupt D appID callIdx a) eqn:Ha.
    + left. exists a. split; [now left|exact Ha].
    + destruct IH as [(x & Hin & Hx)|Hall].
      * left. exists x. split; [now right|exact Hx].
      * right. intros x [<-|Hin]; auto.
Qed.

Lemma corrupt_payload_failure (x : Extrinsic) :
  codec.corrupt D appID callIdx x = true ->
  codec.matches appID callIdx x = true
  /\ exists e, codec.decode D x = codec.PayloadFailure e.
Proof.
  unfold codec.corrupt. intros H. apply andb_true_iff in H. destruct H as [Hm Hd].
  split; [exact Hm|]. destruct (codec.decode D x) as [|e|]; try discriminate.
  now exists e.
Qed.

Lemma extracted_In (xs : list Extrinsic) (b : types.Block) :
  In b (codec.extracted D appID callIdx xs) <->
  exists x, In x xs /\ codec.matches appID callIdx x = true
            /\ codec.decode D x = codec.Decoded b.
Proof.
  induction xs as [|a xs IH]; simpl.
  - split; [intros []|intros (x & [] & _)].
  - destruct (codec.matches appID callIdx a) eqn:Hm.
    + destruct (codec.decode D a) as [|e|blk] eqn:Hd.
      * rewrite IH. split.
        -- intros (x & Hin & H). exists x. split; [now right|exact H].
        -- intros (x & [<-|Hin] & Hmx & Hdx); [congruence|]. now exists x.
      * rewrite IH. split.
        -- intros (x & Hin & H). exists x. split; [now right|exact H].
        -- intros (x & [<-|Hin] & Hmx & Hdx); [congruence|]. now exists x.
      * simpl. rewrite IH. split.
        -- intros [<-|(x & Hin & H)].
           ++ exists a. split; [now left|]. now split.
           ++ exists x. split; [now right|exact H].
        -- intros (x & [<-|Hin] & Hmx & Hdx).
           ++ left. congruence.
           ++ right. now exists x.
    + rewrite IH. split.
      * intros (x & Hin & H). exists x. split; [now right|exact H].
      * intros (x & [<-|Hin] & Hmx & Hdx); [congruence|]. now exists x.
Qed.

Lemma extracted_nil_inv (xs : list Extrinsic) :
  (forall x, In x xs -> codec.corrupt D appID callIdx x = false) ->
  codec.extracted D appID callIdx xs = [] ->
  forall x, In x xs ->
    codec.matches appID callIdx x = false \/
    codec.decode D x = codec.OuterFailure.
Proof.
  intros Hclean Hnil x Hin.
  destruct (codec.matches appID callIdx x) eqn:Hm; [right|now left].
  destruct (codec.decode D x) as [|e|blk] eqn:Hd; [reflexivity| |].
  - specialize (Hclean x Hin). unfold codec.corrupt in Hclean.
    rewrite Hm, Hd in Hclean. discriminate.
  - exfalso.
    assert (Hb : In blk (codec.extracted D appID callIdx xs))
      by (apply extracted_In; now exists x).
    rewrite Hnil in Hb. destruct Hb.
Qed.

End CodecMore.

Lemma FromAvail_corrupt_error
    (D : block.Decoders) (avail_blk : avail_types.SignedBlock)
    (appID : avail_types.UCompact) (callIdx : avail_types.CallIndex) :
  (exists x, In x (avail_types.Extrinsics (avail_types.Block_ avail_blk))
             /\ codec.corrupt D appID callIdx x = true) ->
  exists e,
    block.FromAvail D avail_blk appID callIdx = (None, Some (ErrExternal e)).
Proof.
  intros Hex.
  destruct (first_corrupt_split D appID callIdx _ Hex)
    as (p & y & q & Hs & Hp & Hy).
  apply corrupt_payload_failure in Hy. destruct Hy as (Hym & e & Hyd).
  exists e. unfold block.FromAvail. rewrite Hs.
  now rewrite (FromAvail_loop_first_corrupt D appID callIdx p y q e).
Qed.

(** [big.Int.Int64] is the identity on the [int64] range, so that the
    comparison of application identifiers in [FromAvail] is equality of
    the identifiers there. *)
Lemma Int64_small (u : avail_types.UCompact) :
  - 2 ^ 63 <= u < 2 ^ 63 -> avail_types.Int64 u = u.
Proof.
  intros Hu. unfold avail_types.Int64, avail_types.low64, avail_types.int64_wrap.
  destruct (u <? 0) eqn:Hneg.
  - apply Z.ltb_lt in Hneg. rewrite Z.abs_neq by lia.
    destruct (Z.eq_dec u (- 2 ^ 63)) as [->|Hne].
    + reflexivity.
    + rewrite (Z.mod_small (- u)) by lia.
      rewrite (Z.mod_small (- u + 2 ^ 63)) by lia.
      replace (- (- u + 2 ^ 63 - 2 ^ 63) + 2 ^ 63) with (u + 2 ^ 63) by lia.
      rewrite Z.mod_small by lia. lia.
  - apply Z.ltb_ge in Hneg. rewrite Z.abs_eq by lia.
    rewrite (Z.mod_small u) by lia.
    rewrite Z.mod_small by lia. lia.
Qed.

Lemma matches_iff_equal (appID : avail_types.UCompact)
    (callIdx : avail_types.CallIndex) (x : avail_types.Extrinsic) :
  - 2 ^ 63 <= appID < 2 ^ 63 ->
  - 2 ^ 63 <= avail_types.AppID (avail_types.Signature x) < 2 ^ 63 ->
  codec.matches appID callIdx x = true <->
  avail_types.AppID (avail_types.Signature x) = appID /\
  avail_types.CallIndex_ (avail_types.Method x) = callIdx.
Proof.
  intros Ha Hx. unfold codec.matches, avail_types.CallIndex_eqb.
  rewrite !Int64_small by assumption.
  rewrite !andb_true_iff, !Z.eqb_eq.
  destruct (avail_types.CallIndex_ (avail_types.Method x)) as [s m].
  destruct callIdx as [s' m']. simpl.
  split.
  - intros [-> [-> ->]]. auto.
  - intros [-> Heq]. inversion Heq. auto.
Qed.

(** C2 (as amended).  When no target extrinsic of the DA block fails at
    the settlement-block stage, [FromAvail] returns exactly the K blocks
    of the targets that decode, in the order of the extrinsics: the slice
    of those blocks and a nil error when K > 0, a nil slice and
    [ErrNoExtrinsicFound] when K = 0.  Extrinsics that fail the
    identifier or call-index test, or the bytes or [Blob] decode, leave
    no mark on the result.  K is at most the number N of targets. *)
Theorem FromAvail_returns_decoded_targets
    (D : block.Decoders) (avail_blk : avail_types.SignedBlock)
    (appID : avail_types.UCompact) (callIdx : avail_types.CallIndex) :
  let xs := avail_types.Extrinsics (avail_types.Block_ avail_blk) in
  let N := codec.count_targets appID callIdx xs in
  let K := codec.count_decoded D appID callIdx xs in
  (forall x, In x xs -> codec.corrupt D appID callIdx x = false) ->
  block.FromAvail D avail_blk appID callIdx =
    (if Nat.eqb K 0 then (None, Some ErrNoExtrinsicFound)
     else (Some (codec.extracted D appID callIdx xs), None))
  /\ block.len (fst (block.FromAvail D avail_blk appID callIdx)) = Z.of_nat K
  /\ List.length (codec.extracted D appID callIdx xs) = K
  /\ (K <= N)%nat.
Proof.
  intros xs N K Hclean.
  assert (Hlen := extracted_length D appID callIdx xs). fold K in Hlen.
  assert (Hres : block.FromAvail D avail_blk appID callIdx =
    (if Nat.eqb K 0 then (None, Some ErrNoExtrinsicFound)
     else (Some (codec.extracted D appID callIdx xs), None))).
  { unfold block.FromAvail. fold xs.
    rewrite (FromAvail_loop_clean D appID callIdx xs [] Hclean). simpl app.
    rewrite Hlen.
    destruct K; simpl; reflexivity. }
  split; [exact Hres|]. split; [|split].
  - rewrite Hres. destruct (Nat.eqb K 0) eqn:HK; simpl.
    + apply Nat.eqb_eq in HK. now rewrite HK.
    + now rewrite Hlen.
  - exact Hlen.
  - apply count_decoded_le_targets.
Qed.

Lemma FromAvail_returns_decoded_targets_witness :
  (forall x,
      In x (avail_types.Extrinsics (avail_types.Block_ fixtures.mixedBlock)) ->
      codec.corrupt fixtures.toyDecoders fixtures.appA fixtures.callA x = false)
  /\ block.FromAvail fixtures.toyDecoders fixtures.mixedBlock
       fixtures.appA fixtures.callA
     = (Some [fixtures.edgeBlock 5; fixtures.edgeBlock 6], None).
Proof.
  assert (H : forall x,
      In x (avail_types.Extrinsics (avail_types.Block_ fixtures.mixedBlock)) ->
      codec.corrupt fixtures.toyDecoders fixtures.appA fixtures.callA x = false).
  { intros x Hin. simpl in Hin.
    repeat (destruct Hin as [<-|Hin]; [reflexivity|]). destruct Hin. }
  split; [exact H|].
  exact (proj1 (FromAvail_returns_decoded_targets fixtures.toyDecoders
                  fixtures.mixedBlock fixtures.appA fixtures.callA H)).
Defined.

(** C2 as it is worded fails on the scenario of the specification: two
    targets, one of which decodes (N = 2, K = 1), and [FromAvail] returns
    no block at all, because the other target fails at the
    settlement-block stage. *)
Lemma FromAvail_corrupt_target_voids_decoded_ones :
  let xs := avail_types.Extrinsics (avail_types.Block_ fixtures.scenarioBlock) in
  codec.count_targets fixtures.appA fixtures.callA xs = 2%nat
  /\ codec.count_decoded fixtures.toyDecoders fixtures.appA fixtures.callA xs = 1%nat
  /\ block.FromAvail fixtures.toyDecoders fixtures.scenarioBlock
       fixtures.appA fixtures.callA
     = (None, Some (ErrExternal "rlp: value size exceeds available input length"%string))
  /\ block.len (fst (block.FromAvail fixtures.toyDecoders fixtures.scenarioBlock
                       fixtures.appA fixtures.callA)) <> 1.
Proof.
  repeat split; try reflexivity. vm_compute. discriminate.
Qed.

(** C3.  When a target extrinsic of the DA block passes the bytes and
    [Blob] decode and its [Data] fails to decode as a settlement block,
    [FromAvail] returns a nil slice and a decode error of such a target,
    whatever earlier extrinsics have yielded: the error of the first
    target that fails so, which is this one when no earlier target
    does. *)
Theorem FromAvail_payload_failure_is_fatal
    (D : block.Decoders) (avail_blk : avail_types.SignedBlock)
    (appID : avail_types.UCompact) (callIdx : avail_types.CallIndex)
    (pre post : list avail_types.Extrinsic) (x : avail_types.Extrinsic)
    (e : ExtError) :
  avail_types.Extrinsics (avail_types.Block_ avail_blk) = pre ++ x :: post ->
  codec.matches appID callIdx x = true ->
  codec.decode D x = codec.PayloadFailure e ->
  exists e',
    block.FromAvail D avail_blk appID callIdx = (None, Some (ErrExternal e'))
    /\ (exists y,
          In y (avail_types.Extrinsics (avail_types.Block_ avail_blk))
          /\ codec.matches appID callIdx y = true
          /\ codec.decode D y = codec.PayloadFailure e')
    /\ ((forall y, In y pre -> codec.corrupt D appID callIdx y = false) ->
        e' = e).
Proof.
  intros Hxs Hm Hd.
  assert (Hc : codec.corrupt D appID callIdx x = true)
    by (unfold codec.corrupt; now rewrite Hm, Hd).
  destruct (first_corrupt_split D appID callIdx
              (avail_types.Extrinsics (avail_types.Block_ avail_blk)))
    as (pre' & y & post' & Hsplit & Hpre' & Hy).
  { exists x. split; [|exact Hc]. rewrite Hxs. apply in_elt. }
  unfold codec.corrupt in Hy. apply andb_true_iff in Hy. destruct Hy as [Hym Hyd].
  destruct (codec.decode D y) as [|e'|] eqn:Hdy; try discriminate.
  exists e'. split; [|split].
  - unfold block.FromAvail. rewrite Hsplit.
    now rewrite (FromAvail_loop_first_corrupt D appID callIdx pre' y post' e').
  - exists y. split; [|split]; auto. rewrite Hsplit. apply in_elt.
  - intros Hpre.
    assert (Hloop := FromAvail_loop_first_corrupt D appID callIdx pre x post e []
                       Hpre Hm Hd).
    assert (Hloop' := FromAvail_loop_first_corrupt D appID callIdx pre' y post' e' []
                        Hpre' Hym Hdy).
    rewrite <- Hxs, Hsplit, Hloop' in Hloop. congruence.
Qed.

Lemma FromAvail_payload_failure_is_fatal_witness :
  block.FromAvail fixtures.toyDecoders fixtures.scenarioBlock
    fixtures.appA fixtures.callA
  = (None, Some (ErrExternal "rlp: value size exceeds available input length"%string)).
Proof.
  destruct (FromAvail_payload_failure_is_fatal fixtures.toyDecoders
              fixtures.scenarioBlock fixtures.appA fixtures.callA
              [ fixtures.extrinsic fixtures.appA fixtures.callA
                  (fixtures.validPayload Byte.x05);
                fixtures.extrinsic fixtures.appB fixtures.callA
                  (fixtures.validPayload Byte.x06) ]
              []
              (fixtures.extrinsic fixtures.appA fixtures.callA
                 fixtures.corruptPayload)
              "rlp: value size exceeds available input length"%string
              eq_refl eq_refl eq_refl) as (e' & Hres & _ & He).
  rewrite Hres. rewrite He; [reflexivity|].
  intros y Hin. simpl in Hin.
  repeat (destruct Hin as [<-|Hin]; [reflexivity|]). destruct Hin.
Defined.

Lemma extracted_nil (D : block.Decoders) (appID : avail_types.UCompact)
    (callIdx : avail_types.CallIndex) (xs : list avail_types.Extrinsic) :
  (forall x, In x xs ->
     codec.matches appID callIdx x = false \/
     codec.decode D x = codec.OuterFailure) ->
  codec.extracted D appID callIdx xs = [].
Proof.
  induction xs as [|x rest IH]; intros H; [reflexivity|]. simpl.
  assert (Hrest : codec.extracted D appID callIdx rest = [])
    by (apply IH; intros y Hy; apply H; now right).
  destruct (H x (or_introl eq_refl)) as [-> | ->]; [exact Hrest|].
  now destruct (codec.matches appID callIdx x).
Qed.

(** C4.  When no extrinsic of the DA block yields a settlement block,
    because each of them either is not a target or fails the bytes or the
    [Blob] decode, [FromAvail] returns a nil slice and the sentinel
    [ErrNoExtrinsicFound], which is no collaborator's error. *)
Theorem FromAvail_nothing_found
    (D : block.Decoders) (avail_blk : avail_types.SignedBlock)
    (appID : avail_types.UCompact) (callIdx : avail_types.CallIndex) :
  (forall x, In x (avail_types.Extrinsics (avail_types.Block_ avail_blk)) ->
     codec.matches appID callIdx x = false \/
     codec.decode D x = codec.OuterFailure) ->
  block.FromAvail D avail_blk appID callIdx = (None, Some ErrNoExtrinsicFound)
  /\ forall e, snd (block.FromAvail D avail_blk appID callIdx)
               <> Some (ErrExternal e).
Proof.
  intros H.
  assert (Hres : block.FromAvail D avail_blk appID callIdx
                 = (None, Some ErrNoExtrinsicFound)).
  { unfold block.FromAvail.
    rewrite (FromAvail_loop_clean D appID callIdx _ []).
    - rewrite (extracted_nil D appID callIdx _ H). reflexivity.
    - intros x Hx. unfold codec.corrupt.
      destruct (H x Hx) as [-> | ->]; [reflexivity|]. apply andb_false_r. }
  split; [exact Hres|]. intros e. rewrite Hres. discriminate.
Qed.

Lemma FromAvail_nothing_found_witness :
  block.FromAvail fixtures.toyDecoders fixtures.foreignBlock
    fixtures.appA fixtures.callA
  = (None, Some ErrNoExtrinsicFound).
Proof.
  apply (FromAvail_nothing_found fixtures.toyDecoders fixtures.foreignBlock
           fixtures.appA fixtures.callA).
  intros x Hin. simpl in Hin.
  destruct Hin as [<-|[<-|[<-|[]]]]; [left|left|right]; reflexivity.
Defined.

(* ------------------------------------------------------------------ *)
(** * The resume point                                                 *)
(* ------------------------------------------------------------------ *)

Section ResumeFacts.

Import avail.
Context {W : Type}.
Variable D : block.Decoders.
Variable E : Env W.
Variable d : Avail.

(** [FromAvail] returns either blocks and no error, or an error and no
    blocks. *)
Lemma FromAvail_shape (availBlk : avail_types.SignedBlock)
    (appID : avail_types.UCompact) (callIdx : avail_types.CallIndex) :
  (exists e, block.FromAvail D availBlk appID callIdx = (None, Some e))
  \/ (exists b l, block.FromAvail D availBlk appID callIdx = (Some (b :: l), None)).
Proof.
  unfold block.FromAvail.
  destruct (block.FromAvail_loop D _ appID callIdx []) as [[|b l]|e]; simpl.
  - left. now exists ErrNoExtrinsicFound.
  - right. now exists b, l.
  - left. now exists (ErrExternal e).
Qed.

Lemma syncFunc_range_spec (blks : list types.Block) (target n : Z) :
  syncFunc_range blks target n =
  if existsb (fun b => types.Number (types.Header_ b) =? target) blks
  then (n, true, None) else (-1, false, None).
Proof.
  induction blks as [|b rest IH]; [reflexivity|]. simpl.
  destruct (types.Number (types.Header_ b) =? target); [reflexivity|exact IH].
Qed.

(** The predicate reports a match exactly when the codec returns
    blocks for the DA block and one of them has the target number; the
    match is reported at the number of the DA block. *)
Lemma syncFunc_found_iff (availBlk : avail_types.SignedBlock)
    (target : Z) (callIdx : avail_types.CallIndex) :
  resume.found (syncFunc D d availBlk target callIdx) = true <->
  resume.embeds D d callIdx availBlk target.
Proof.
  unfold resume.found, resume.embeds, syncFunc.
  destruct (FromAvail_shape availBlk (availAppID d) callIdx)
    as [[e He]|[b [l Hl]]].
  - rewrite He. split.
    + destruct e; simpl; discriminate.
    + intros (l & b & Hc & _). discriminate.
  - rewrite Hl. cbv zeta. cbv iota.
    replace (Z.of_nat (List.length (b :: l)) <? 1) with false
      by (symmetry; apply Z.ltb_ge; simpl List.length; lia).
    cbv iota. rewrite syncFunc_range_spec.
    destruct (existsb _ (b :: l)) eqn:Hex; simpl; split.
    + intros _. apply existsb_exists in Hex. destruct Hex as (x & Hin & Hx).
      apply Z.eqb_eq in Hx. exists (b :: l), x. auto.
    + reflexivity.
    + discriminate.
    + intros (l' & x & Heq & Hin & Hx). exfalso.
      inversion Heq; subst l'.
      assert (Ht : existsb
                (fun b0 => types.Number (types.Header_ b0) =? target)
                (b :: l) = true).
      { apply existsb_exists. exists x. split; [exact Hin|].
        now apply Z.eqb_eq. }
      congruence.
Qed.

Lemma syncFunc_found_at (availBlk : avail_types.SignedBlock)
    (target : Z) (callIdx : avail_types.CallIndex) :
  resume.found (syncFunc D d availBlk target callIdx) = true ->
  syncFunc D d availBlk target callIdx =
  (avail_types.Number (avail_types.Header_ (avail_types.Block_ availBlk)),
   true, None).
Proof.
  unfold resume.found, syncFunc.
  destruct (FromAvail_shape availBlk (availAppID d) callIdx)
    as [[e He]|[b [l Hl]]].
  - rewrite He. destruct e; simpl; discriminate.
  - rewrite Hl. cbv zeta. cbv iota.
    replace (Z.of_nat (List.length (b :: l)) <? 1) with false
      by (symmetry; apply Z.ltb_ge; simpl List.length; lia).
    cbv iota. rewrite syncFunc_range_spec.
    destruct (existsb _ (b :: l)); simpl; [reflexivity|discriminate].
Qed.

Lemma syncFunc_none_found (availBlk : avail_types.SignedBlock)
    (target : Z) (callIdx : avail_types.CallIndex) :
  block.FromAvail D availBlk (availAppID d) callIdx
    = (None, Some ErrNoExtrinsicFound) ->
  syncFunc D d availBlk target callIdx = (-1, false, None).
Proof. unfold syncFunc. intros ->. reflexivity. Qed.

Lemma syncFunc_decode_error (availBlk : avail_types.SignedBlock)
    (target : Z) (callIdx : avail_types.CallIndex) (e : ExtError) :
  block.FromAvail D availBlk (availAppID d) callIdx
    = (None, Some (ErrExternal e)) ->
  syncFunc D d availBlk target callIdx = (-1, false, Some (ErrExternal e)).
Proof. unfold syncFunc. intros ->. reflexivity. Qed.

(** On a DA block without a corrupt target the codec returns the
    payloads of the targets that decode, or the sentinel when there is
    none. *)
Lemma FromAvail_intact (availBlk : avail_types.SignedBlock)
    (callIdx : avail_types.CallIndex) :
  resume.intact D d callIdx availBlk ->
  block.FromAvail D availBlk (availAppID d) callIdx =
  match codec.extracted D (availAppID d) callIdx
          (avail_types.Extrinsics (avail_types.Block_ availBlk)) with
  | [] => (None, Some ErrNoExtrinsicFound)
  | b :: l => (Some (b :: l), None)
  end.
Proof.
  intros Hclean. unfold block.FromAvail.
  rewrite (FromAvail_loop_clean D (availAppID d) callIdx _ [] Hclean).
  simpl. now destruct (codec.extracted D (availAppID d) callIdx _).
Qed.

(** The codec returns a settlement block numbered [M] for a DA block
    exactly when the DA block carries it and has no corrupt target. *)
Lemma embeds_iff (availBlk : avail_types.SignedBlock) (M : Z)
    (callIdx : avail_types.CallIndex) :
  resume.embeds D d callIdx availBlk M <->
  resume.intact D d callIdx availBlk
  /\ resume.carries D d callIdx availBlk M.
Proof.
  split.
  - intros (l & b & HF & Hin & Hn).
    destruct (corrupt_dec D (availAppID d) callIdx
                (avail_types.Extrinsics (avail_types.Block_ availBlk)))
      as [Hex|Hclean].
    + destruct (FromAvail_corrupt_error D availBlk _ _ Hex) as [e He].
      rewrite He in HF. discriminate.
    + split; [exact Hclean|].
      rewrite (FromAvail_intact availBlk callIdx Hclean) in HF.
      unfold resume.carries.
      destruct (codec.extracted D (availAppID d) callIdx _);
        [discriminate|].
      injection HF as <-. now exists b.
  - intros [Hclean (b & Hin & Hn)].
    unfold resume.embeds. rewrite (FromAvail_intact availBlk callIdx Hclean).
    destruct (codec.extracted D (availAppID d) callIdx _) as [|b0 l];
      [destruct Hin|].
    now exists (b0 :: l), b.
Qed.

(** The predicate reports an error exactly on the DA blocks that have a
    corrupt target. *)
Lemma syncFunc_no_error_iff (availBlk : avail_types.SignedBlock)
    (target : Z) (callIdx : avail_types.CallIndex) :
  snd (syncFunc D d availBlk target callIdx) = None <->
  resume.intact D d callIdx availBlk.
Proof.
  split.
  - intros Hnone.
    destruct (corrupt_dec D (availAppID d) callIdx
                (avail_types.Extrinsics (avail_types.Block_ availBlk)))
      as [Hex|Hclean]; [|exact Hclean].
    destruct (FromAvail_corrupt_error D availBlk _ _ Hex) as [e He].
    rewrite (syncFunc_decode_error availBlk target callIdx e He) in Hnone.
    discriminate.
  - intros Hclean. unfold syncFunc.
    rewrite (FromAvail_intact availBlk callIdx Hclean).
    destruct (codec.extracted D (availAppID d) callIdx _) as [|b l];
      [reflexivity|].
    cbv zeta. cbv iota.
    replace (Z.of_nat (List.length (b :: l)) <? 1) with false
      by (symmetry; apply Z.ltb_ge; simpl List.length; lia).
    cbv iota. rewrite syncFunc_range_spec.
    now destruct (existsb _ (b :: l)).
Qed.

(** [getNextAvailBlockNumber], call by call. *)
Lemma getNextAvailBlockNumber_run (w : W) :
  getNextAvailBlockNumber D E d w =
  let (head, w1) := blockchain_Header W E w in
  if types.Number head =? 0 then Returned 1 [EvHeader head] w1
  else
    let (r, w2) :=
      availClient_SearchBlock W E 0 (types.Number head) (syncFunc D d) w1 in
    match r with
    | Err e =>
      Returned 0
        [EvHeader head; EvSearchBlock 0 (types.Number head) (Err e);
         EvLog Error "failure to sync node"] w2
    | Ok blk =>
      Returned
        (avail_types.Number (avail_types.Header_ (avail_types.Block_ blk)))
        [EvHeader head; EvSearchBlock 0 (types.Number head) (Ok blk)] w2
    end.
Proof.
  unfold getNextAvailBlockNumber, bind, call, log, ret.
  destruct (blockchain_Header W E w) as [head w1].
  destruct (types.Number head =? 0); [reflexivity|].
  destruct (availClient_SearchBlock W E 0 (types.Number head) (syncFunc D d) w1)
    as [[blk|e] w2]; reflexivity.
Qed.

(** It always returns, and nothing it does touches the block stream. *)
Lemma getNextAvailBlockNumber_returns (w : W) :
  exists n t w1,
    getNextAvailBlockNumber D E d w = Returned n t w1
    /\ Forall (fun ev => resume.processes_block ev = false) t.
Proof.
  rewrite getNextAvailBlockNumber_run.
  destruct (blockchain_Header W E w) as [head w1].
  destruct (types.Number head =? 0).
  - eexists _, _, _. split; [reflexivity|]. repeat constructor.
  - destruct (availClient_SearchBlock W E 0 (types.Number head) (syncFunc D d) w1)
      as [[blk|e] w2]; eexists _, _, _; (split; [reflexivity|]);
      repeat constructor.
Qed.

End ResumeFacts.







(** With the scripted search, which gives up on the first error of the
    predicate, a corrupt target in an earlier DA block also hides a
    later DA block that embeds the head: DA block 13 embeds block 6 and
    the resume point is 0. *)
Example getNextAvailBlockNumber_scripted_search_gives_up :
  resume.embeds fixtures.toyDecoders fixtures.sequencerNode fixtures.callA
    fixtures.mixedBlock 6
  /\ avail.getNextAvailBlockNumber fixtures.toyDecoders fixtures.toyEnv
       fixtures.sequencerNode fixtures.brokenHistoryWorld
     = avail.Returned 0
         [avail.EvHeader (types.mkHeader 6 [] []);
          avail.EvSearchBlock 0 6
            (Err "rlp: value size exceeds available input length"%string);
          avail.EvLog avail.Error "failure to sync node"]
         fixtures.brokenHistoryWorld.
Proof.
  split; [|reflexivity].
  exists [fixtures.edgeBlock 5; fixtures.edgeBlock 6], (fixtures.edgeBlock 6).
  split; [reflexivity|]. split; [simpl; auto|reflexivity].
Qed.

(* ------------------------------------------------------------------ *)
(** * The syncer                                                       *)
(* ------------------------------------------------------------------ *)

Section SyncerFacts.

Import avail.
Context {W : Type}.
Variable D : block.Decoders.
Variable E : Env W.
Variable d : Avail.

Lemma bind_prepend {A B} (m : M W A) (f : A -> M W B) (w : W) :
  bind m f w =
  match m w with
  | Returned a t w1 => prepend t (f a w1)
  | Pending t w1 => Pending t w1
  end.
Proof. reflexivity. Qed.

Lemma bind_call {A B} (f : W -> A * W) (ev : A -> Event)
    (k : A -> M W B) (w : W) :
  bind (call f ev) k w = let (a, w1) := f w in prepend [ev a] (k a w1).
Proof. unfold bind, call. now destruct (f w). Qed.

Lemma bind_act {B} (f : W -> W) (ev : Event) (k : unit -> M W B) (w : W) :
  bind (act f ev) k w = prepend [ev] (k tt (f w)).
Proof. reflexivity. Qed.

Lemma bind_log {B} (l : Level) (msg : string) (k : unit -> M W B) (w : W) :
  bind (log l msg) k w = prepend [EvLog l msg] (k tt w).
Proof. reflexivity. Qed.

Lemma bind_sleep {B} (seconds : Z) (k : unit -> M W B) (w : W) :
  bind (sleep E seconds) k w
  = prepend [EvSleep seconds] (k tt (time_Sleep W E seconds w)).
Proof. reflexivity. Qed.

Lemma trace_of_prepend {A} (t : Trace) (o : Outcome W A) :
  trace_of (prepend t o) = t ++ trace_of o.
Proof. now destruct o. Qed.

Lemma prepend_prepend {A} (t1 t2 : Trace) (o : Outcome W A) :
  prepend t1 (prepend t2 o) = prepend (t1 ++ t2) o.
Proof. destruct o; simpl; now rewrite app_assoc. Qed.

(** [processEdgeBlock], call by call: the validator is called only
    when the gate has cleared the block, and [WriteBlock] only when
    the validator has then returned no error. *)
Lemma processEdgeBlock_run (edgeBlk : types.Block) (w : W) :
  processEdgeBlock E d edgeBlk w =
  let (fraud, w1) := fraudResolver_IsFraudProofBlock W E edgeBlk w in
  if fraud then Returned tt (resume.edge_trace d edgeBlk true None None) w1
  else
    let (err, w2) := validator_Check W E edgeBlk w1 in
    match err with
    | Some e => Returned tt (resume.edge_trace d edgeBlk false (Some e) None) w2
    | None =>
      let (werr, w3) := blockchain_WriteBlock W E edgeBlk (nodeType d) w2 in
      Returned tt (resume.edge_trace d edgeBlk false None werr) w3
    end.
Proof.
  unfold processEdgeBlock, resume.edge_trace, bind, call, log, ret.
  destruct (fraudResolver_IsFraudProofBlock W E edgeBlk w) as [[|] w1];
    [reflexivity|]. simpl.
  destruct (validator_Check W E edgeBlk w1) as [[e|] w2]; [reflexivity|].
  destruct (Z.of_nat (List.length (types.Transactions edgeBlk)) >? 0);
    destruct (blockchain_WriteBlock W E edgeBlk (nodeType d) w2)
      as [[e|] w3]; reflexivity.
Qed.

Lemma gated_app (t1 t2 : Trace) :
  resume.gated t1 -> resume.gated t2 -> resume.gated (t1 ++ t2).
Proof.
  intros H1 H2. induction H1; simpl.
  - exact H2.
  - now apply resume.gated_other.
  - now apply resume.gated_flagged.
  - now apply resume.gated_rejected.
  - rewrite <- app_assoc. simpl. now apply resume.gated_committed.
Qed.

Lemma edge_trace_gated (edgeBlk : types.Block) (fraud : bool)
    (err werr : option ExtError) :
  resume.gated (resume.edge_trace d edgeBlk fraud err werr)
  /\ Forall (fun ev => resume.edge_event ev = true) (resume.edge_trace d edgeBlk fraud err werr).
Proof.
  unfold resume.edge_trace. destruct fraud.
  - split.
    + apply resume.gated_flagged, resume.gated_nil.
    + now repeat constructor.
  - destruct err as [e|].
    + split.
      * apply resume.gated_rejected, resume.gated_other;
          [reflexivity|apply resume.gated_nil].
      * now repeat constructor.
    + split.
      * apply resume.gated_committed.
        -- destruct (_ >? 0); now repeat constructor.
        -- destruct werr;
             [apply resume.gated_other; [reflexivity|]|];
             apply resume.gated_nil.
      * destruct (_ >? 0); destruct werr; now repeat constructor.
Qed.

(** The loop over the extracted blocks always comes to its end, and
    leaves only gate events and log lines. *)
Lemma processEdgeBlocks_run (edgeBlks : list types.Block) :
  forall w, exists t w',
    processEdgeBlocks E d edgeBlks w = Returned tt t w'
    /\ resume.gated t
    /\ Forall (fun ev => resume.edge_event ev = true) t.
Proof.
  induction edgeBlks as [|b rest IH]; intros w.
  - exists [], w. repeat split; constructor.
  - simpl. rewrite bind_prepend, processEdgeBlock_run.
    assert (Hone : exists fraud err werr w1,
      (let (fraud, w1) := fraudResolver_IsFraudProofBlock W E b w in
       if fraud then Returned tt (resume.edge_trace d b true None None) w1
       else
         let (err, w2) := validator_Check W E b w1 in
         match err with
         | Some e => Returned tt (resume.edge_trace d b false (Some e) None) w2
         | None =>
           let (werr, w3) := blockchain_WriteBlock W E b (nodeType d) w2 in
           Returned tt (resume.edge_trace d b false None werr) w3
         end) = Returned tt (resume.edge_trace d b fraud err werr) w1).
    { destruct (fraudResolver_IsFraudProofBlock W E b w) as [[|] w1].
      - now exists true, None, None, w1.
      - destruct (validator_Check W E b w1) as [[e|] w2].
        + now exists false, (Some e), None, w2.
        + destruct (blockchain_WriteBlock W E b (nodeType d) w2) as [werr w3].
          now exists false, None, werr, w3. }
    destruct Hone as (fraud & err & werr & w1 & ->).
    destruct (IH w1) as (t & w' & -> & Hg & Hev). simpl.
    destruct (edge_trace_gated b fraud err werr) as [Hg1 Hev1].
    eexists _, _. split; [reflexivity|]. split.
    + now apply gated_app.
    + apply Forall_app. now split.
Qed.

(** One turn of the loop of [syncNode] on a DA block. *)
Lemma syncLoop_recv (hdr : avail_types.Header)
    (callIdx : avail_types.CallIndex) (blk : avail_types.SignedBlock)
    (rest : list Select) (n : Z) (w : W) :
  syncLoop D E d hdr callIdx (RecvBlock blk :: rest) n w =
  prepend [EvSelect (RecvBlock blk)]
    (let '(edgeBlks, err) := block.FromAvail D blk (availAppID d) callIdx in
     let unexpected :=
       if block.len edgeBlks =? 0 then
         match err with
         | Some e => negb (error_eqb e ErrNoExtrinsicFound)
         | None => false
         end
       else false in
     if unexpected then
       prepend
         [EvLog Warn "unexpected error while extracting SL blocks from Avail block"]
         (syncLoop D E d hdr callIdx rest n w)
     else
       match processEdgeBlocks E d
               (match edgeBlks with Some l => l | None => [] end) w with
       | Returned _ t w1 =>
         prepend t
           (let number :=
              avail_types.Number
                (avail_types.Header_ (avail_types.Block_ blk)) in
            if avail_types.Number hdr =? number
            then Returned (number, None) [] w1
            else syncLoop D E d hdr callIdx rest number w1)
       | Pending t w1 => Pending t w1
       end).
Proof.
  simpl syncLoop. rewrite bind_prepend. unfold act at 1. cbv iota beta.
  f_equal.
  destruct (block.FromAvail D blk (availAppID d) callIdx) as [edgeBlks err].
  cbv zeta.
  match goal with |- context [if ?c then _ else _] => destruct c end.
  - rewrite bind_prepend. reflexivity.
  - rewrite bind_prepend.
    destruct (processEdgeBlocks E d _ w) as [[] t w1|t w1]; [|reflexivity].
    f_equal. now destruct (avail_types.Number hdr =? _).
Qed.

Lemma syncLoop_close (hdr : avail_types.Header)
    (callIdx : avail_types.CallIndex) (rest : list Select) (n : Z) (w : W) :
  syncLoop D E d hdr callIdx (CloseCh :: rest) n w =
  let (r, w1) := stakingNode_UnStake W E (signKey d) w in
  Returned (match r with Some _ => n | None => 0 end, None)
           (EvSelect CloseCh :: EvUnStake r :: resume.unstake_log r) w1.
Proof.
  simpl syncLoop. unfold bind, act, call, log, ret.
  destruct (stakingNode_UnStake W E (signKey d) w) as [[e|] w1]; reflexivity.
Qed.

(** Every trace of the loop uses the gate, the validator and the
    commit in the gated way. *)
Lemma syncLoop_gated (hdr : avail_types.Header)
    (callIdx : avail_types.CallIndex) (sel : list Select) :
  forall n w, resume.gated (trace_of (syncLoop D E d hdr callIdx sel n w)).
Proof.
  induction sel as [|[blk|] rest IH]; intros n w.
  - apply resume.gated_nil.
  - rewrite syncLoop_recv, trace_of_prepend.
    apply resume.gated_other; [reflexivity|].
    destruct (block.FromAvail D blk (availAppID d) callIdx) as [edgeBlks err].
    cbv zeta.
    match goal with |- context [if ?c then _ else _] => destruct c end.
    + rewrite trace_of_prepend.
      apply resume.gated_other; [reflexivity|]. apply IH.
    + destruct (processEdgeBlocks_run
                  (match edgeBlks with Some l => l | None => [] end) w)
        as (t & w1 & -> & Hg & _).
      rewrite trace_of_prepend. apply gated_app; [exact Hg|].
      destruct (avail_types.Number hdr =? _); [apply resume.gated_nil|apply IH].
  - rewrite syncLoop_close.
    destruct (stakingNode_UnStake W E (signKey d) w) as [[e|] w1]; simpl;
      repeat (apply resume.gated_other; [reflexivity|]);
      apply resume.gated_nil.
Qed.

(** [syncNode], call by call, around its loop. *)
Lemma syncNode_run (sel : list Select) (w : W) :
  syncNode D E d sel w =
  match getNextAvailBlockNumber D E d w with
  | Pending t w1 => Pending t w1
  | Returned n t0 w1 =>
    prepend t0
      (let (r, w2) := availClient_GetLatestHeader W E w1 in
       match r with
       | Err e =>
         Returned (0, None)
           [EvGetLatestHeader (Err e);
            EvLog Error "couldn't fetch latest block hash"] w2
       | Ok hdr =>
         let (r', w3) := avail_FindCallIndex W E w2 in
         match r' with
         | Err e =>
           Returned (n, Some (ErrExternal e))
             [EvGetLatestHeader (Ok hdr); EvFindCallIndex (Err e)] w3
         | Ok callIdx =>
           prepend
             [EvGetLatestHeader (Ok hdr); EvFindCallIndex (Ok callIdx);
              EvBlockStream n]
             (match syncLoop D E d hdr callIdx sel n
                      (availClient_BlockStream W E n w3) with
              | Returned res t w4 =>
                Returned res (t ++ [EvStreamClose])
                         (availBlockStream_Close W E w4)
              | Pending t w4 => Pending t w4
              end)
         end
       end)
  end.
Proof.
  unfold syncNode. rewrite bind_prepend.
  destruct (getNextAvailBlockNumber D E d w) as [n t0 w1|t0 w1]; [|reflexivity].
  f_equal. unfold bind, call, act, log, ret.
  destruct (availClient_GetLatestHeader W E w1) as [[hdr|e] w2]; [|reflexivity].
  destruct (avail_FindCallIndex W E w2) as [[callIdx|e] w3]; [|reflexivity].
  destruct (syncLoop D E d hdr callIdx sel n _) as [res t w4|t w4];
    simpl; rewrite ?app_nil_r; reflexivity.
Qed.

Lemma not_gate_gated (t : Trace) :
  Forall (fun ev => resume.is_gate_event ev = false) t -> resume.gated t.
Proof.
  induction 1; [apply resume.gated_nil|now apply resume.gated_other].
Qed.

Lemma quiet_not_gate (t : Trace) :
  Forall (fun ev => resume.processes_block ev = false) t ->
  Forall (fun ev => resume.is_gate_event ev = false) t.
Proof.
  apply Forall_impl. intros ev. now destruct ev.
Qed.

Lemma syncNode_gated (sel : list Select) (w : W) :
  resume.gated (trace_of (syncNode D E d sel w)).
Proof.
  rewrite syncNode_run.
  destruct (getNextAvailBlockNumber_returns D E d w) as (n & t0 & w1 & -> & Hq).
  rewrite trace_of_prepend.
  apply gated_app; [now apply not_gate_gated, quiet_not_gate|].
  destruct (availClient_GetLatestHeader W E w1) as [[hdr|e] w2].
  - destruct (avail_FindCallIndex W E w2) as [[callIdx|e] w3].
    + rewrite trace_of_prepend.
      repeat (apply resume.gated_other; [reflexivity|]).
      assert (Hg := syncLoop_gated hdr callIdx sel n
                      (availClient_BlockStream W E n w3)).
      destruct (syncLoop D E d hdr callIdx sel n _) as [res t w4|t w4];
        simpl in *; [|exact Hg].
      apply gated_app; [exact Hg|].
      apply resume.gated_other; [reflexivity|apply resume.gated_nil].
    + simpl. repeat (apply resume.gated_other; [reflexivity|]).
      apply resume.gated_nil.
  - simpl. repeat (apply resume.gated_other; [reflexivity|]).
    apply resume.gated_nil.
Qed.

End SyncerFacts.

(** ** What a gated trace says about single events *)

Section GatedFacts.

Import avail.

(** Where an event that is not a log line sits in a list that begins
    with log lines. *)
Lemma split_after_logs (logs : Trace) :
  forall (a : Event) (t t1 : Trace) (x : Event) (t2 : Trace),
    Forall (fun ev => resume.is_log ev = true) logs ->
    resume.is_log x = false ->
    logs ++ a :: t = t1 ++ x :: t2 ->
    (t1 = logs /\ a = x /\ t = t2)
    \/ (exists t1', t1 = logs ++ a :: t1' /\ t = t1' ++ x :: t2).
Proof.
  induction logs as [|l logs IH]; intros a t t1 x t2 Hlogs Hx Heq.
  - destruct t1 as [|y t1]; simpl in Heq; injection Heq as -> ->.
    + now left.
    + right. now exists t1.
  - inversion Hlogs as [|? ? Hl Hlogs']; subst.
    destruct t1 as [|y t1]; simpl in Heq; injection Heq as -> Heq.
    + congruence.
    + destruct (IH a t t1 x t2 Hlogs' Hx Heq) as [(-> & -> & ->)|(t1' & -> & ->)].
      * now left.
      * right. now exists t1'.
Qed.

(** The last event that is not a log line is determined by the list. *)
Lemma nonlog_tail_unique (l1 l2 logs1 logs2 : Trace) (a1 a2 : Event) :
  Forall (fun ev => resume.is_log ev = true) logs1 ->
  Forall (fun ev => resume.is_log ev = true) logs2 ->
  resume.is_log a1 = false -> resume.is_log a2 = false ->
  l1 ++ a1 :: logs1 = l2 ++ a2 :: logs2 ->
  a1 = a2.
Proof.
  intros H1 H2 Ha1 Ha2 Heq.
  apply (f_equal (@rev Event)) in Heq.
  rewrite !rev_app_distr in Heq. simpl in Heq. rewrite <- !app_assoc in Heq.
  simpl in Heq.
  apply split_after_logs in Heq; [| now apply Forall_rev | exact Ha2].
  destruct Heq as [(_ & Heq & _)|(t1' & Heq & _)]; [exact Heq|].
  exfalso.
  assert (Hin : In a1 (rev logs2)) by (rewrite Heq; apply in_elt).
  apply in_rev in Hin.
  rewrite Forall_forall in H2. specialize (H2 a1 Hin). congruence.
Qed.

Lemma gated_check_after_clear (t : Trace) :
  resume.gated t ->
  forall t1 b r t2,
    t = t1 ++ EvCheck b r :: t2 ->
    exists t0, t1 = t0 ++ [EvIsFraudProofBlock b false].
Proof.
  induction 1 as [|ev t Hev Hg IH|b0 t Hg IH|b0 e0 t Hg IH
                  |b0 logs source r0 t Hlogs Hg IH];
    intros t1 b r t2 Heq.
  - destruct t1; discriminate.
  - destruct t1 as [|x t1]; simpl in Heq; injection Heq as -> Heq.
    + discriminate.
    + destruct (IH _ _ _ _ Heq) as [t0 ->]. now exists (x :: t0).
  - destruct t1 as [|x t1]; simpl in Heq; [discriminate|].
    injection Heq as <- Heq.
    destruct (IH _ _ _ _ Heq) as [t0 ->]. now exists (EvIsFraudProofBlock b0 true :: t0).
  - destruct t1 as [|x [|y t1]]; simpl in Heq; [discriminate| |].
    + injection Heq as <- Hb _ _. subst b0. now exists [].
    + injection Heq as <- <- Heq.
      destruct (IH _ _ _ _ Heq) as [t0 ->].
      now exists (EvIsFraudProofBlock b0 false :: EvCheck b0 (Some e0) :: t0).
  - destruct t1 as [|x [|y t1]]; simpl in Heq; [discriminate| |].
    + injection Heq as <- Hb _ _. subst b0. now exists [].
    + injection Heq as <- <- Heq.
      apply split_after_logs in Heq; [|exact Hlogs|reflexivity].
      destruct Heq as [(_ & Habs & _)|(t1' & -> & Heq)]; [discriminate|].
      destruct (IH _ _ _ _ Heq) as [t0 ->].
      exists (EvIsFraudProofBlock b0 false :: EvCheck b0 None
              :: logs ++ EvWriteBlock b0 source r0 :: t0).
      simpl. rewrite <- app_assoc. reflexivity.
Qed.

Lemma gated_write_after_check (t : Trace) :
  resume.gated t ->
  forall t1 b source r t2,
    t = t1 ++ EvWriteBlock b source r :: t2 ->
    exists t0 logs,
      t1 = t0 ++ EvIsFraudProofBlock b false :: EvCheck b None :: logs
      /\ Forall (fun ev => resume.is_log ev = true) logs.
Proof.
  induction 1 as [|ev t Hev Hg IH|b0 t Hg IH|b0 e0 t Hg IH
                  |b0 logs source0 r0 t Hlogs Hg IH];
    intros t1 b source r t2 Heq.
  - destruct t1; discriminate.
  - destruct t1 as [|x t1]; simpl in Heq; injection Heq as -> Heq.
    + discriminate.
    + destruct (IH _ _ _ _ _ Heq) as (t0 & logs & -> & Hl).
      now exists (x :: t0), logs.
  - destruct t1 as [|x t1]; simpl in Heq; [discriminate|].
    injection Heq as <- Heq.
    destruct (IH _ _ _ _ _ Heq) as (t0 & logs & -> & Hl).
    now exists (EvIsFraudProofBlock b0 true :: t0), logs.
  - destruct t1 as [|x [|y t1]]; simpl in Heq; [discriminate|discriminate|].
    injection Heq as <- <- Heq.
    destruct (IH _ _ _ _ _ Heq) as (t0 & logs & -> & Hl).
    now exists (EvIsFraudProofBlock b0 false :: EvCheck b0 (Some e0) :: t0), logs.
  - destruct t1 as [|x [|y t1]]; simpl in Heq; [discriminate|discriminate|].
    injection Heq as <- <- Heq.
    apply split_after_logs in Heq; [|exact Hlogs|reflexivity].
    destruct Heq as [(-> & Habs & _)|(t1' & -> & Heq)].
    + injection Habs as -> _ _. now exists [], logs.
    + destruct (IH _ _ _ _ _ Heq) as (t0 & logs' & -> & Hl).
      exists (EvIsFraudProofBlock b0 false :: EvCheck b0 None
              :: logs ++ EvWriteBlock b0 source0 r0 :: t0), logs'.
      split; [|exact Hl]. simpl. rewrite <- app_assoc. reflexivity.
Qed.

End GatedFacts.

(** C1.  In every run of [syncNode], finished or not, and for every
    behaviour of the fraud gate, of the validator and of the chain:
    a [WriteBlock] of a settlement block comes right after (log lines
    apart) the validator's [Check] of that block returned no error,
    which comes right after the fraud gate answered that the block is
    not a fraud-proof block; a [Check] of a block comes right after the
    gate's answer [false] for it.  So the answer [true] of the gate is
    followed neither by a [Check] nor by a [WriteBlock], and an error of
    [Check] is not followed by a [WriteBlock] before the gate is asked
    again. *)
Theorem syncNode_commits_only_cleared_and_valid
    {W : Type} (D : block.Decoders) (E : avail.Env W) (d : avail.Avail)
    (sel : list avail.Select) (w : W) :
  let t := avail.trace_of (avail.syncNode D E d sel w) in
  (forall t1 b source r t2,
      t = t1 ++ avail.EvWriteBlock b source r :: t2 ->
      exists t0 logs,
        t1 = t0 ++ avail.EvIsFraudProofBlock b false
                :: avail.EvCheck b None :: logs
        /\ Forall (fun ev => resume.is_log ev = true) logs)
  /\ (forall t1 b r t2,
        t = t1 ++ avail.EvCheck b r :: t2 ->
        exists t0, t1 = t0 ++ [avail.EvIsFraudProofBlock b false])
  /\ (forall t1 b b' r t2,
        t <> t1 ++ avail.EvIsFraudProofBlock b true
                :: avail.EvCheck b' r :: t2)
  /\ (forall t1 b b' source r t2,
        t <> t1 ++ avail.EvIsFraudProofBlock b true
                :: avail.EvWriteBlock b' source r :: t2)
  /\ (forall t1 b e logs b' source r t2,
        Forall (fun ev => resume.is_log ev = true) logs ->
        t <> t1 ++ avail.EvCheck b (Some e)
                :: logs ++ avail.EvWriteBlock b' source r :: t2).
Proof.
  intros t. assert (Hg : resume.gated t) by apply syncNode_gated.
  split; [|split; [|split; [|split]]].
  - intros t1 b source r t2 Heq. exact (gated_write_after_check t Hg _ _ _ _ _ Heq).
  - intros t1 b r t2 Heq. exact (gated_check_after_clear t Hg _ _ _ _ Heq).
  - intros t1 b b' r t2 Heq.
    assert (Heq' : t = (t1 ++ [avail.EvIsFraudProofBlock b true])
                       ++ avail.EvCheck b' r :: t2)
      by (rewrite Heq, <- app_assoc; reflexivity).
    destruct (gated_check_after_clear t Hg _ _ _ _ Heq') as [t0 Ht0].
    apply app_inj_tail in Ht0. destruct Ht0 as [_ Habs]. discriminate.
  - intros t1 b b' source r t2 Heq.
    assert (Heq' : t = (t1 ++ [avail.EvIsFraudProofBlock b true])
                       ++ avail.EvWriteBlock b' source r :: t2)
      by (rewrite Heq, <- app_assoc; reflexivity).
    destruct (gated_write_after_check t Hg _ _ _ _ _ Heq') as (t0 & logs & Ht0 & Hl).
    assert (Habs : avail.EvIsFraudProofBlock b true = avail.EvCheck b' None).
    { apply (nonlog_tail_unique t1 (t0 ++ [avail.EvIsFraudProofBlock b' false])
                                [] logs); auto.
      rewrite Ht0, <- app_assoc. reflexivity. }
    discriminate.
  - intros t1 b e logs b' source r t2 Hlogs Heq.
    assert (Heq' : t = (t1 ++ avail.EvCheck b (Some e) :: logs)
                       ++ avail.EvWriteBlock b' source r :: t2)
      by (rewrite Heq, <- app_assoc; reflexivity).
    destruct (gated_write_after_check t Hg _ _ _ _ _ Heq') as (t0 & logs' & Ht0 & Hl).
    assert (Habs : avail.EvCheck b (Some e) = avail.EvCheck b' None).
    { apply (nonlog_tail_unique t1 (t0 ++ [avail.EvIsFraudProofBlock b' false])
                                logs logs'); auto.
      rewrite Ht0, <- app_assoc. reflexivity. }
    discriminate.
Qed.

(** A run through the gate: of the three blocks of DA block 13, the
    flagged one is not checked, the rejected one is not written, the
    third is written. *)
Example syncNode_gate_run :
  avail.syncNode fixtures.toyDecoders fixtures.toyEnv fixtures.sequencerNode
    [avail.RecvBlock fixtures.gateBlock] fixtures.gateWorld
  = avail.Returned (13, None)
      [avail.EvHeader (types.mkHeader 0 [] []);
       avail.EvGetLatestHeader (Ok (avail_types.mkHeader 13));
       avail.EvFindCallIndex (Ok fixtures.callA);
       avail.EvBlockStream 1;
       avail.EvSelect (avail.RecvBlock fixtures.gateBlock);
       avail.EvIsFraudProofBlock (fixtures.edgeBlock 5) true;
       avail.EvIsFraudProofBlock (fixtures.edgeBlock 6) false;
       avail.EvCheck (fixtures.edgeBlock 6) (Some "invalid block"%string);
       avail.EvLog avail.Warn "failed to validate edge block received from avail";
       avail.EvIsFraudProofBlock (fixtures.edgeBlock 7) false;
       avail.EvCheck (fixtures.edgeBlock 7) None;
       avail.EvWriteBlock (fixtures.edgeBlock 7) avail.Sequencer None;
       avail.EvStreamClose]
      (fixtures.commit (fixtures.edgeBlock 7) fixtures.gateWorld).
Proof. reflexivity. Qed.

(** C10.  When [GetLatestHeader] fails, [syncNode] logs the failure and
    returns [(0, nil)]: the error of the call is not returned.  It does
    so whatever the block stream and the shutdown channel would have
    delivered, and none of its events touches the stream or a settlement
    block: the stream is not opened, no DA block is received, the gate,
    the validator and [WriteBlock] are not called. *)
Theorem syncNode_latest_header_failure
    {W : Type} (D : block.Decoders) (E : avail.Env W) (d : avail.Avail)
    (sel : list avail.Select) (w : W) (e : ExtError) (w2 : W) :
  let o := avail.getNextAvailBlockNumber D E d w in
  avail.availClient_GetLatestHeader W E (avail.world_of o) = (Err e, w2) ->
  avail.syncNode D E d sel w =
    avail.Returned (0, None)
      (avail.trace_of o
       ++ [avail.EvGetLatestHeader (Err e);
           avail.EvLog avail.Error "couldn't fetch latest block hash"]) w2
  /\ Forall (fun ev => resume.processes_block ev = false)
            (avail.trace_of (avail.syncNode D E d sel w)).
Proof.
  intros o Hhdr. rewrite syncNode_run.
  destruct (getNextAvailBlockNumber_returns D E d w) as (n & t0 & w1 & Ho & Hq).
  unfold o in *. rewrite Ho in *. simpl in Hhdr. rewrite Hhdr. simpl.
  split; [reflexivity|].
  apply Forall_app. split; [exact Hq|]. now repeat constructor.
Qed.

Lemma syncNode_latest_header_failure_witness :
  avail.syncNode fixtures.toyDecoders fixtures.toyEnv fixtures.sequencerNode
    [avail.RecvBlock fixtures.gateBlock; avail.CloseCh] fixtures.offlineWorld
  = avail.Returned (0, None)
      [avail.EvHeader (types.mkHeader 0 [] []);
       avail.EvGetLatestHeader (Err "connection refused"%string);
       avail.EvLog avail.Error "couldn't fetch latest block hash"]
      fixtures.offlineWorld.
Proof.
  exact (proj1 (syncNode_latest_header_failure fixtures.toyDecoders
                  fixtures.toyEnv fixtures.sequencerNode
                  [avail.RecvBlock fixtures.gateBlock; avail.CloseCh]
                  fixtures.offlineWorld "connection refused"%string
                  fixtures.offlineWorld eq_refl)).
Defined.

(** ** Shutdown *)

Section ShutdownFacts.

Import avail.
Context {W : Type}.
Variable D : block.Decoders.
Variable E : Env W.
Variable d : Avail.









End ShutdownFacts.



(* ------------------------------------------------------------------ *)
(** * The pool path of staking                                         *)
(* ------------------------------------------------------------------ *)

Section PoolFacts.

Import avail.
Context {W : Type}.
Variable E : Env W.
Variable d : Avail.

Lemma attempts_app (t1 t2 : Trace) :
  pool.attempts (t1 ++ t2) = pool.attempts t1 ++ pool.attempts t2.
Proof.
  induction t1 as [|ev t1 IH]; [reflexivity|].
  destruct ev; simpl; rewrite IH; reflexivity.
Qed.


Lemma no_submission_attempts (t : Trace) :
  Forall (fun ev => pool.is_submission ev = false) t ->
  pool.attempts t = [] /\ pool.backoffs t = 0%nat.
Proof.
  unfold pool.backoffs.
  induction 1 as [|ev t Hev Ht [IH1 IH2]]; [now split|].
  destruct ev; simpl in *; try discriminate; try (now split).
  rewrite Hev. now split.
Qed.

(** The retry loop always comes to its end.  Either every submission it
    made failed: then it made as many as it was allowed, slept 2 s after
    each, and leaves the error of the last one.  Or its last submission
    succeeded: then the ones before failed, there were fewer than
    allowed of them, and it leaves [nil]. *)
Lemma submitLoop_spec (n : nat) :
  forall (retries : Z) (tx : types.Transaction) (err : option error) (w : W),
    Z.of_nat n = 10 - retries ->
    exists res t w' es,
      submitLoop E n retries tx err w = Returned res t w'
      /\ Forall (fun ev => pool.is_query ev = false
                           /\ pool.is_probation ev = false) t
      /\ pool.backoffs t = List.length es
      /\ ((pool.attempts t = map Some es /\ List.length es = n
           /\ res = pool.last_error err es)
          \/ (pool.attempts t = map Some es ++ [None]
              /\ (List.length es < n)%nat /\ res = None)).
Proof.
  induction n as [|n IH]; intros retries tx err w Hn.
  - exists err, [], w, []. simpl. repeat split; [constructor|now left].
  - assert (Hlt : (retries <? 10) = true) by (apply Z.ltb_lt; lia).
    simpl submitLoop. rewrite Hlt. unfold bind at 1. unfold call at 1.
    destruct (txpool_AddTx W E tx w) as [[e|] w1].
    + destruct (IH (retries + 1) tx (Some (ErrExternal e))
                   (time_Sleep W E 2 w1))
        as (res & t & w' & es & Hrun & Hq & Hb & Hcase); [lia|].
      unfold bind, log, sleep, act. rewrite Hrun. simpl.
      exists res, (EvAddTx tx (Some e)
                   :: EvLog Error "Failure to add staking tx to the txpool err: %s"
                   :: EvSleep 2 :: t), w', (e :: es).
      split; [reflexivity|]. split; [|split].
      * now repeat constructor.
      * unfold pool.backoffs in *. simpl. now rewrite Hb.
      * destruct Hcase as [(Ha & Hl & Hr)|(Ha & Hl & Hr)]; [left|right]; simpl;
          rewrite Ha; repeat split; auto; lia.
    + exists None, [EvAddTx tx None], w1, []. simpl.
      split; [reflexivity|]. split; [now repeat constructor|].
      split; [reflexivity|].
      right. repeat split. lia.
Qed.

Lemma last_error_snoc (err : option error) (es : list ExtError) (e : ExtError) :
  pool.last_error err (es ++ [e]) = Some (ErrExternal e).
Proof. unfold pool.last_error. now rewrite fold_left_app. Qed.

Lemma waitBootnodeConn_quiet (fuel : nat) :
  forall w,
    Forall (fun ev => pool.is_submission ev = false
                      /\ pool.is_query ev = false
                      /\ pool.is_probation ev = false)
           (trace_of (waitBootnodeConn E d fuel w)).
Proof.
  induction fuel as [|fuel IH]; intros w; [constructor|].
  simpl. destruct (hasNetwork d); simpl; [|constructor].
  unfold bind at 1. unfold call at 1.
  destruct (network_GetBootnodeConnCount W E w) as [c w1].
  destruct (c >? 0); simpl; [now repeat constructor|].
  unfold bind, sleep, act.
  assert (H := IH (time_Sleep W E 1 w1)).
  destruct (waitBootnodeConn E d fuel (time_Sleep W E 1 w1)); simpl in *;
    now repeat constructor.
Qed.

(** The poll after a submission: rounds of "not staked" answers, each
    followed by a sleep of 3 s, and then one of three ends: the
    observation is over, the query failed and its error is returned at
    once, or the answer was "staked" and the poll returns success after
    a last sleep. *)
Lemma pollStaked_shape (fuel : nat) :
  forall w, exists k en w',
    (k <= fuel)%nat
    /\ (en = pool.PollObserved -> k = fuel)
    /\ pollStaked E d fuel w
       = pool.poll_outcome en (pool.poll_rounds d k ++ pool.poll_end d en) w'.
Proof.
  induction fuel as [|fuel IH]; intros w.
  - exists 0%nat, pool.PollObserved, w. now repeat split.
  - simpl pollStaked. unfold bind at 1. unfold log at 1. unfold bind at 1.
    unfold call at 1.
    destruct (activeParticipantsQuerier_Contains W E (minerAddr d)
                (staking_NodeType (nodeType d)) w) as [[staked|e] w1].
    + unfold bind at 1. unfold sleep at 1, act at 1.
      destruct staked.
      * exists 0%nat, pool.PollStaked, (time_Sleep W E 3 w1).
        split; [lia|]. split; [discriminate|]. reflexivity.
      * destruct (IH (time_Sleep W E 3 w1)) as (k & en & w' & Hk & Hen & Hrun).
        rewrite Hrun.
        exists (S k), en, w'. split; [lia|].
        split; [intros Hp; now rewrite (Hen Hp)|].
        destruct en; reflexivity.
    + exists 0%nat, (pool.PollError e), w1.
      split; [lia|]. split; [discriminate|]. reflexivity.
Qed.

(** [stakeParticipantThroughTxPool] around its two loops: either it does
    not get to submit (it is still waiting for a bootnode connection, or
    building or signing the transaction failed), or it runs the retry
    loop and then, when that left no error, the poll. *)
Lemma stakeParticipantThroughTxPool_run (fuel : nat) (w : W) :
  let o := stakeParticipantThroughTxPool E d fuel w in
  (Forall pool.calm (trace_of o)
   /\ forall b e t w', o = Returned (b, e) t w' -> b = false)
  \/ exists pre tx w3 res t w4,
       Forall pool.calm pre
       /\ submitLoop E 10 0 tx None w3 = Returned res t w4
       /\ o = prepend (pre ++ t)
                 (match res with
                  | Some e => Returned (false, Some e) [] w4
                  | None => pollStaked E d fuel w4
                  end).
Proof.
  intros o.
  assert (Ho : o = stakeParticipantThroughTxPool E d fuel w) by reflexivity.
  clearbody o. unfold stakeParticipantThroughTxPool in Ho. cbv zeta in Ho.
  rewrite bind_prepend in Ho.
  assert (Hwait := waitBootnodeConn_quiet fuel w).
  destruct (waitBootnodeConn E d fuel w) as [[] t0 w1|t0 w1]; simpl in Hwait.
  2:{ left. subst o. split; [exact Hwait|]. intros; discriminate. }
  rewrite bind_sleep, bind_call in Ho.
  destruct (staking_StakeTx W E (minerAddr d) (10 * common_ETH W E)
              (nodeType d) 1000000 (time_Sleep W E 5 w1)) as [[tx|e] w2].
  2:{ left. subst o. cbn [prepend ret trace_of]. split.
      - apply Forall_app. split; [exact Hwait|]. now repeat constructor.
      - intros b e' t w' Heq. now inversion Heq. }
  rewrite bind_call in Ho.
  destruct (txSigner_SignTx W E tx (signKey d) w2) as [[tx'|e] w3].
  2:{ left. subst o. cbn [prepend ret trace_of]. split.
      - apply Forall_app. split; [exact Hwait|]. now repeat constructor.
      - intros b e' t w' Heq. now inversion Heq. }
  right. rewrite bind_prepend in Ho.
  destruct (submitLoop_spec 10 0 tx' None w3 eq_refl)
    as (res & t & w4 & es & Hrun & _).
  rewrite Hrun in Ho.
  exists (t0 ++ [EvSleep 5; EvStakeTx (nodeType d) (Ok tx); EvSignTx (Ok tx')]),
         tx', w3, res, t, w4.
  split; [|split; [exact Hrun|]].
  - apply Forall_app. split; [exact Hwait|]. now repeat constructor.
  - subst o. rewrite !prepend_prepend.
    replace (((t0 ++ [EvSleep 5]) ++ [EvStakeTx (nodeType d) (Ok tx)])
                ++ [EvSignTx (Ok tx')])
      with (t0 ++ [EvSleep 5; EvStakeTx (nodeType d) (Ok tx); EvSignTx (Ok tx')])
      by (rewrite <- !app_assoc; reflexivity).
    destruct res; reflexivity.
Qed.

End PoolFacts.

Section PoolClaims.

Import avail.
Context {W : Type}.
Variable E : Env W.
Variable d : Avail.

Lemma poll_trace_calm (k : nat) (en : pool.PollEnd) :
  Forall (fun ev => pool.is_submission ev = false
                    /\ pool.is_probation ev = false
                    /\ pool.is_query_error ev = false)
         (pool.poll_rounds d k)
  /\ Forall (fun ev => pool.is_submission ev = false
                       /\ pool.is_probation ev = false)
            (pool.poll_end d en).
Proof.
  split.
  - induction k as [|k IH]; simpl; now repeat constructor.
  - destruct en; simpl; now repeat constructor.
Qed.

Lemma trace_of_poll_outcome (en : pool.PollEnd) (t : Trace) (w : W) :
  trace_of (pool.poll_outcome en t w) = t.
Proof. now destruct en. Qed.

Lemma prepend_poll_outcome (en : pool.PollEnd) (t t' : Trace) (w : W) :
  prepend t (pool.poll_outcome en t' w) = pool.poll_outcome en (t ++ t') w.
Proof. now destruct en. Qed.





End PoolClaims.



Section PollClaims.

Import avail.
Context {W : Type}.
Variable E : Env W.
Variable d : Avail.

(** A list splits in one way only around the single element that
    satisfies [p]. *)
Lemma split_at_unique (p : Event -> bool) (a : Trace) :
  forall (x : Event) (b a' : Trace) (x' : Event) (b' : Trace),
    Forall (fun ev => p ev = false) a ->
    Forall (fun ev => p ev = false) b ->
    p x = true -> p x' = true ->
    a ++ x :: b = a' ++ x' :: b' ->
    a = a' /\ x = x' /\ b = b'.
Proof.
  induction a as [|y a IH]; intros x b a' x' b' Ha Hb Hx Hx' Heq.
  - destruct a' as [|z a']; simpl in Heq.
    + injection Heq as -> ->. now repeat split.
    + injection Heq as <- Heq. exfalso.
      assert (Hin : In x' b) by (rewrite Heq; apply in_elt).
      rewrite Forall_forall in Hb. specialize (Hb _ Hin). congruence.
  - inversion Ha as [|? ? Hy Ha']; subst.
    destruct a' as [|z a']; simpl in Heq; injection Heq as -> Heq.
    + congruence.
    + destruct (IH x b a' x' b' Ha' Hb Hx Hx' Heq) as (-> & -> & ->).
      now repeat split.
Qed.

(** The pool path around its poll: either no status query is made (the
    function is still before its submission, or has returned [false]
    without one), or the submission succeeded and the poll follows. *)
Lemma stakeParticipantThroughTxPool_poll_shape (fuel : nat) (w : W) :
  let o := stakeParticipantThroughTxPool E d fuel w in
  (Forall (fun ev => pool.is_query ev = false) (trace_of o)
   /\ forall b e t w', o = Returned (b, e) t w' -> b = false)
  \/ exists pre es k en w',
       Forall (fun ev => pool.is_query ev = false) pre
       /\ pool.attempts pre = map Some es ++ [None]
       /\ (k <= fuel)%nat
       /\ (en = pool.PollObserved -> k = fuel)
       /\ o = pool.poll_outcome en
                (pre ++ pool.poll_rounds d k ++ pool.poll_end d en) w'.
Proof.
  intros o.
  destruct (stakeParticipantThroughTxPool_run E d fuel w)
    as [[Hcalm Hb]|(pre & tx & w3 & res & t & w4 & Hpre & Hrun & Ho)];
    fold o in Hcalm, Hb || fold o in Ho.
  - left. split; [|exact Hb]. revert Hcalm. apply Forall_impl.
    now intros ev (_ & H & _).
  - destruct (submitLoop_spec E 10 0 tx None w3 eq_refl)
      as (res' & t' & w4' & es & Hrun' & Hq & _ & Hcase).
    rewrite Hrun in Hrun'. injection Hrun' as <- <- <-.
    assert (Hpt : Forall (fun ev => pool.is_query ev = false) (pre ++ t)).
    { apply Forall_app. split.
      - revert Hpre. apply Forall_impl. now intros ev (_ & H & _).
      - revert Hq. apply Forall_impl. now intros ev (H & _). }
    destruct res as [e|].
    + left. rewrite Ho. simpl. rewrite app_nil_r. split; [exact Hpt|].
      intros b e' t' w' Heq. now inversion Heq.
    + right.
      destruct Hcase as [(Ha & Hl & Hr)|(Ha & Hl & _)].
      { exfalso. destruct es as [|e0 es0] using rev_ind; [discriminate|].
        rewrite last_error_snoc in Hr. discriminate. }
      destruct (pollStaked_shape E d fuel w4) as (k & en & w' & Hk & Hen & Hp).
      exists (pre ++ t), es, k, en, w'.
      split; [exact Hpt|]. split; [|split; [exact Hk|split; [exact Hen|]]].
      * rewrite attempts_app.
        assert (Hpa : pool.attempts pre = []).
        { apply no_submission_attempts. revert Hpre. apply Forall_impl.
          now intros ev (H & _). }
        now rewrite Hpa.
      * rewrite Ho, Hp, prepend_poll_outcome. reflexivity.
Qed.

End PollClaims.

(** C8 (as amended).  In a run of [stakeParticipantThroughTxPool] the
    participant-status query is made only after a submission to the
    transaction pool succeeded, and then the poll is: rounds of a query
    answered "not staked" and a sleep of 3 s, for as long as the run is
    observed, until a query is answered "staked" (the function returns
    [true] and a nil error after a last sleep of 3 s) or a query fails.
    A failed query is not retried: it is the last event of the run, and
    the function has returned [false] with the query's error. *)
Theorem stakeParticipantThroughTxPool_poll
    {W : Type} (E : avail.Env W) (d : avail.Avail) (fuel : nat) (w : W) :
  let o := avail.stakeParticipantThroughTxPool E d fuel w in
  ((Forall (fun ev => pool.is_query ev = false) (avail.trace_of o)
    /\ forall b e t w', o = avail.Returned (b, e) t w' -> b = false)
   \/ exists pre es k en w',
        Forall (fun ev => pool.is_query ev = false) pre
        /\ pool.attempts pre = map Some es ++ [None]
        /\ (k <= fuel)%nat
        /\ (en = pool.PollObserved -> k = fuel)
        /\ o = pool.poll_outcome en
                 (pre ++ pool.poll_rounds d k ++ pool.poll_end d en) w')
  /\ forall t1 nt e t2,
       avail.trace_of o = t1 ++ avail.EvContains nt (Err e) :: t2 ->
       t2 = []
       /\ exists w',
            o = avail.Returned (false, Some (ErrExternal e))
                  (t1 ++ [avail.EvContains nt (Err e)]) w'.
Proof.
  intros o.
  assert (Hshape := stakeParticipantThroughTxPool_poll_shape E d fuel w).
  fold o in Hshape. split; [exact Hshape|].
  intros t1 nt e t2 Heq.
  assert (Hquery : forall ev, pool.is_query ev = false ->
                              pool.is_query_error ev = false)
    by (intros ev; destruct ev as [| | | | | | | | | | | | | |? []| | | | | | | | | |];
        simpl; congruence).
  destruct Hshape
    as [[Hnone _]|(pre & es & k & en & w' & Hpre & _ & _ & _ & Ho)].
  - exfalso. rewrite Heq in Hnone. apply Forall_app in Hnone.
    destruct Hnone as [_ Hn]. inversion Hn. discriminate.
  - rewrite Ho, trace_of_poll_outcome in Heq.
    destruct (poll_trace_calm d k en) as [Hr He].
    assert (Hpre' : Forall (fun ev => pool.is_query_error ev = false)
                      (pre ++ pool.poll_rounds d k)).
    { apply Forall_app. split.
      - revert Hpre. apply Forall_impl. exact Hquery.
      - revert Hr. apply Forall_impl. now intros ev (_ & _ & H). }
    destruct en as [|e'|].
    + exfalso. simpl in Heq. rewrite app_nil_r in Heq. rewrite Heq in Hpre'.
      apply Forall_app in Hpre'. destruct Hpre' as [_ Hn].
      inversion Hn. discriminate.
    + simpl in Heq.
      assert (Heq' : ((pre ++ pool.poll_rounds d k) ++ [pool.poll_log])
                     ++ avail.EvContains
                          (avail.staking_NodeType (avail.nodeType d)) (Err e')
                        :: []
                     = t1 ++ avail.EvContains nt (Err e) :: t2)
        by (rewrite <- Heq, <- !app_assoc; reflexivity).
      apply (split_at_unique pool.is_query_error) in Heq'; auto.
      * destruct Heq' as (Ht1 & Hx & Ht2). injection Hx as Hnt Herr.
        subst nt e'. split; [now symmetry|]. exists w'. rewrite Ho. simpl.
        rewrite <- Ht1, <- !app_assoc. reflexivity.
      * apply Forall_app. split; [exact Hpre'|]. now repeat constructor.
    + exfalso. simpl in Heq.
      assert (Hall : Forall (fun ev => pool.is_query_error ev = false)
                       (t1 ++ avail.EvContains nt (Err e) :: t2)).
      { rewrite <- Heq, app_assoc. apply Forall_app.
        split; [exact Hpre'|]. now repeat constructor. }
      apply Forall_app in Hall. destruct Hall as [_ Hn].
      inversion Hn. discriminate.
Qed.

(** C8 as it is worded fails on a run in which the third submission is
    accepted, the first status query is answered "not staked" and the
    second one fails: the function returns [false] with the error of the
    query, and the answer "staked" that the querier had next is never
    asked for. *)
Lemma stakeParticipantThroughTxPool_surfaces_query_error :
  let o := avail.stakeParticipantThroughTxPool fixtures.toyEnv
             fixtures.sequencerNode 5 fixtures.flakyQuerierWorld in
  o = avail.Returned
        (false, Some (ErrExternal "rpc: connection reset"%string))
        (fixtures.beforeQueryError
         ++ [avail.EvContains (avail.staking_NodeType avail.Sequencer)
               (Err "rpc: connection reset"%string)])
        (avail.world_of o)
  /\ fixtures.contains (avail.world_of o) = [Ok true].
Proof. split; vm_compute; reflexivity. Qed.

Lemma stakeParticipantThroughTxPool_poll_witness :
  exists w',
    avail.stakeParticipantThroughTxPool fixtures.toyEnv
      fixtures.sequencerNode 5 fixtures.flakyQuerierWorld
    = avail.Returned
        (false, Some (ErrExternal "rpc: connection reset"%string))
        (fixtures.beforeQueryError
         ++ [avail.EvContains (avail.staking_NodeType avail.Sequencer)
               (Err "rpc: connection reset"%string)]) w'.
Proof.
  refine (proj2 (proj2 (stakeParticipantThroughTxPool_poll fixtures.toyEnv
                          fixtures.sequencerNode 5 fixtures.flakyQuerierWorld)
                   fixtures.beforeQueryError
                   (avail.staking_NodeType avail.Sequencer)
                   "rpc: connection reset"%string [] _)).
  vm_compute. reflexivity.
Defined.

(* ------------------------------------------------------------------ *)
(** * The staking loop                                                 *)
(* ------------------------------------------------------------------ *)

Section StakingLoopFacts.

Import avail.
Context {W : Type}.
Variable E : Env W.
Variable d : Avail.

Ltac run_calls :=
  repeat match goal with
         | |- context [match ?c with pair _ _ => _ end] =>
           let r := fresh "r" in destruct c as [r ?]; destruct r
         end.

(** Without the wait for peers, the direct-block path has no loop: it
    always returns. *)
Lemma stakeParticipant_returns (fuel : nat) (nodeType_ : MechanismType) (w : W) :
  exists e t w',
    stakeParticipant E d fuel false nodeType_ w = Returned e t w'
    /\ Forall (fun ev => pool.is_probation ev = false) t.
Proof.
  unfold stakeParticipant, bind, call, act, log, ret. cbv zeta.
  run_calls; eexists _, _, _; (split; [reflexivity|]); simpl;
    now repeat constructor.
Qed.







End StakingLoopFacts.




(** The bootstrap node of [bootstrapWorld] stakes through a block in its
    first turn, finds itself staked in the next two, and goes on. *)
Example ensureStaked_goroutine_bootstrap_run :
  avail.trace_of
    (avail.ensureStaked_goroutine fixtures.toyEnv fixtures.bootstrapNode 3
       avail.staking_Sequencer None fixtures.bootstrapWorld)
  = [avail.EvInProbation (Ok false);
     avail.EvContains avail.staking_Sequencer (Ok false);
     avail.EvFromBlockchainHead None;
     avail.EvSetCoinbaseAddress [Byte.x01];
     avail.EvSignWith [Byte.x02];
     avail.EvStakeTx avail.Sequencer (Ok fixtures.toyTx);
     avail.EvSignTx (Ok (Byte.xff :: fixtures.toyTx));
     avail.EvAddTransactions (Byte.xff :: fixtures.toyTx);
     avail.EvBuild (Ok (fixtures.edgeBlock 1));
     avail.EvLog avail.Debug "sending block with staking tx to Avail";
     avail.EvSendAndWaitForStatus (fixtures.edgeBlock 1) None;
     avail.EvLog avail.Info "Successfully wrote staking block to the blockchain";
     avail.EvWriteBlock (fixtures.edgeBlock 1) avail.BootstrapSequencer None;
     avail.EvInProbation (Ok false);
     avail.EvContains avail.staking_Sequencer (Ok true);
     avail.EvLog avail.Info
       "Node is successfully staked... Rechecking in few seconds for potential changes...";
     avail.EvSleep 3;
     avail.EvInProbation (Ok false);
     avail.EvContains avail.staking_Sequencer (Ok true);
     avail.EvLog avail.Info
       "Node is successfully staked... Rechecking in few seconds for potential changes...";
     avail.EvSleep 3].
Proof. vm_compute. reflexivity. Qed.

(* ------------------------------------------------------------------ *)
(** * Further properties of the codec                                  *)
(* ------------------------------------------------------------------ *)

(** X1.  [FromAvail] never returns a partial or an empty result: it
    returns either a nil slice with an error, or a slice with at least
    one block and a nil error. *)
Theorem FromAvail_blocks_xor_error
    (D : block.Decoders) (avail_blk : avail_types.SignedBlock)
    (appID : avail_types.UCompact) (callIdx : avail_types.CallIndex) :
  (exists e, block.FromAvail D avail_blk appID callIdx = (None, Some e))
  \/ (exists b l,
        block.FromAvail D avail_blk appID callIdx = (Some (b :: l), None)).
Proof.
  unfold block.FromAvail.
  destruct (block.FromAvail_loop D _ appID callIdx []) as [[|b l]|e]; simpl.
  - left. now exists ErrNoExtrinsicFound.
  - right. now exists b, l.
  - left. now exists (ErrExternal e).
Qed.

(** X2.  [FromAvail] returns [ErrNoExtrinsicFound] exactly when every
    extrinsic of the DA block either is no target or fails the bytes or
    the [Blob] decode: the sentinel never hides a target whose payload
    was reached. *)
Theorem FromAvail_sentinel_iff
    (D : block.Decoders) (avail_blk : avail_types.SignedBlock)
    (appID : avail_types.UCompact) (callIdx : avail_types.CallIndex) :
  block.FromAvail D avail_blk appID callIdx = (None, Some ErrNoExtrinsicFound)
  <->
  (forall x, In x (avail_types.Extrinsics (avail_types.Block_ avail_blk)) ->
     codec.matches appID callIdx x = false \/
     codec.decode D x = codec.OuterFailure).
Proof.
  set (xs := avail_types.Extrinsics (avail_types.Block_ avail_blk)).
  split.
  - intros Hres.
    destruct (corrupt_dec D appID callIdx xs) as [(x & Hin & Hx)|Hclean].
    + exfalso. apply corrupt_payload_failure in Hx. destruct Hx as (Hm & e & Hd).
      destruct (in_split _ _ Hin) as (pre & post & Hsplit).
      destruct (first_corrupt_split D appID callIdx xs) as (p & y & q & Hs & Hp & Hy).
      { exists x. split; [exact Hin|].
        unfold codec.corrupt. now rewrite Hm, Hd. }
      apply corrupt_payload_failure in Hy. destruct Hy as (Hym & e' & Hyd).
      unfold block.FromAvail in Hres. fold xs in Hres. rewrite Hs in Hres.
      rewrite (FromAvail_loop_first_corrupt D appID callIdx p y q e') in Hres
        by assumption.
      discriminate.
    + apply extracted_nil_inv; [exact Hclean|].
      unfold block.FromAvail in Hres. fold xs in Hres.
      rewrite (FromAvail_loop_clean D appID callIdx xs [] Hclean) in Hres.
      simpl in Hres.
      destruct (codec.extracted D appID callIdx xs); [reflexivity|discriminate].
  - intros H.
    unfold block.FromAvail. fold xs.
    rewrite (FromAvail_loop_clean D appID callIdx xs []).
    + rewrite (extracted_nil D appID callIdx xs H). reflexivity.
    + intros x Hx. unfold codec.corrupt.
      destruct (H x Hx) as [-> | ->]; [reflexivity|]. apply andb_false_r.
Qed.

(** X3.  [FromAvail] returns an error other than the sentinel exactly
    when some target extrinsic of the DA block reaches the
    settlement-block stage and fails there; the error is then the
    decode error of such a target, namely of the first one: [FromAvail]
    returns the error [e] exactly when the first corrupt target of the
    DA block failed with [e]. *)
Theorem FromAvail_decode_error_iff
    (D : block.Decoders) (avail_blk : avail_types.SignedBlock)
    (appID : avail_types.UCompact) (callIdx : avail_types.CallIndex) :
  ((exists e,
      block.FromAvail D avail_blk appID callIdx = (None, Some (ErrExternal e)))
   <->
   (exists x, In x (avail_types.Extrinsics (avail_types.Block_ avail_blk))
              /\ codec.corrupt D appID callIdx x = true))
  /\ (forall e,
        block.FromAvail D avail_blk appID callIdx = (None, Some (ErrExternal e))
        <->
        exists pre x post,
          avail_types.Extrinsics (avail_types.Block_ avail_blk)
          = pre ++ x :: post
          /\ (forall y, In y pre -> codec.corrupt D appID callIdx y = false)
          /\ codec.matches appID callIdx x = true
          /\ codec.decode D x = codec.PayloadFailure e).
Proof.
  set (xs := avail_types.Extrinsics (avail_types.Block_ avail_blk)).
  assert (Hfirst : forall pre x post e,
            xs = pre ++ x :: post ->
            (forall y, In y pre -> codec.corrupt D appID callIdx y = false) ->
            codec.matches appID callIdx x = true ->
            codec.decode D x = codec.PayloadFailure e ->
            block.FromAvail D avail_blk appID callIdx
            = (None, Some (ErrExternal e))).
  { intros pre x post e Hs Hp Hm Hd. unfold block.FromAvail. fold xs.
    rewrite Hs.
    now rewrite (FromAvail_loop_first_corrupt D appID callIdx pre x post e). }
  assert (Hsome : forall e,
            block.FromAvail D avail_blk appID callIdx
            = (None, Some (ErrExternal e)) ->
            exists x, In x xs /\ codec.corrupt D appID callIdx x = true).
  { intros e Hres.
    destruct (corrupt_dec D appID callIdx xs) as [Hex|Hclean]; [exact Hex|].
    exfalso. unfold block.FromAvail in Hres. fold xs in Hres.
    rewrite (FromAvail_loop_clean D appID callIdx xs [] Hclean) in Hres.
    simpl in Hres.
    destruct (codec.extracted D appID callIdx xs); discriminate. }
  split; [split|intros e; split].
  - intros [e Hres]. exact (Hsome e Hres).
  - intros Hex.
    destruct (first_corrupt_split D appID callIdx xs Hex)
      as (p & y & q & Hs & Hp & Hy).
    apply corrupt_payload_failure in Hy. destruct Hy as (Hym & e & Hyd).
    exists e. exact (Hfirst p y q e Hs Hp Hym Hyd).
  - intros Hres.
    destruct (first_corrupt_split D appID callIdx xs (Hsome e Hres))
      as (p & y & q & Hs & Hp & Hy).
    apply corrupt_payload_failure in Hy. destruct Hy as (Hym & e' & Hyd).
    assert (He := Hfirst p y q e' Hs Hp Hym Hyd).
    rewrite Hres in He. injection He as ->.
    now exists p, y, q.
  - intros (p & y & q & Hs & Hp & Hym & Hyd).
    exact (Hfirst p y q e Hs Hp Hym Hyd).
Qed.

(** X4.  Every settlement block that [FromAvail] returns is the decoded
    payload of a target extrinsic of the DA block, no target of the
    block failed at the settlement-block stage, and the blocks are those
    of all the targets that decode, in extrinsic order. *)
Theorem FromAvail_blocks_sound
    (D : block.Decoders) (avail_blk : avail_types.SignedBlock)
    (appID : avail_types.UCompact) (callIdx : avail_types.CallIndex)
    (l : list types.Block) (err : option error) :
  block.FromAvail D avail_blk appID callIdx = (Some l, err) ->
  let xs := avail_types.Extrinsics (avail_types.Block_ avail_blk) in
  err = None
  /\ l = codec.extracted D appID callIdx xs
  /\ (forall x, In x xs -> codec.corrupt D appID callIdx x = false)
  /\ (forall b, In b l ->
        exists x, In x xs /\ codec.matches appID callIdx x = true
                  /\ codec.decode D x = codec.Decoded b).
Proof.
  intros Hres xs.
  destruct (corrupt_dec D appID callIdx xs) as [Hex|Hclean].
  - exfalso.
    destruct (FromAvail_corrupt_error D avail_blk appID callIdx Hex)
      as [e He].
    rewrite He in Hres. discriminate.
  - unfold block.FromAvail in Hres. fold xs in Hres.
    rewrite (FromAvail_loop_clean D appID callIdx xs [] Hclean) in Hres.
    simpl in Hres.
    destruct (codec.extracted D appID callIdx xs) as [|b0 l0] eqn:Hext;
      simpl in Hres; [discriminate|].
    injection Hres as <- <-.
    split; [reflexivity|]. split; [reflexivity|]. split; [exact Hclean|].
    intros b Hb. apply (extracted_In D appID callIdx xs b). now rewrite Hext.
Qed.

Lemma FromAvail_blocks_sound_witness :
  exists x,
    In x (avail_types.Extrinsics (avail_types.Block_ fixtures.mixedBlock))
    /\ codec.matches fixtures.appA fixtures.callA x = true
    /\ codec.decode fixtures.toyDecoders x
       = codec.Decoded (fixtures.edgeBlock 6).
Proof.
  apply (proj2 (proj2 (proj2
    (FromAvail_blocks_sound fixtures.toyDecoders fixtures.mixedBlock
       fixtures.appA fixtures.callA
       [fixtures.edgeBlock 5; fixtures.edgeBlock 6] None eq_refl)))).
  simpl. right. left. reflexivity.
Defined.

(** ** Application identifiers beyond 64 bits *)

Lemma int64_wrap_add_mul (z k : Z) :
  avail_types.int64_wrap (z + k * 2 ^ 64) = avail_types.int64_wrap z.
Proof.
  unfold avail_types.int64_wrap.
  replace (z + k * 2 ^ 64 + 2 ^ 63) with (z + 2 ^ 63 + k * 2 ^ 64) by ring.
  now rewrite Z.mod_add by discriminate.
Qed.

Lemma int64_wrap_mod (z : Z) :
  avail_types.int64_wrap (z mod 2 ^ 64) = avail_types.int64_wrap z.
Proof.
  rewrite (Z.mod_eq z (2 ^ 64)) by discriminate.
  replace (z - 2 ^ 64 * (z / 2 ^ 64)) with (z + (- (z / 2 ^ 64)) * 2 ^ 64) by ring.
  apply int64_wrap_add_mul.
Qed.

Lemma int64_wrap_opp_wrap (z : Z) :
  avail_types.int64_wrap (- avail_types.int64_wrap z)
  = avail_types.int64_wrap (- z).
Proof.
  unfold avail_types.int64_wrap at 2.
  rewrite (Z.mod_eq (z + 2 ^ 63) (2 ^ 64)) by discriminate.
  replace (- (z + 2 ^ 63 - 2 ^ 64 * ((z + 2 ^ 63) / 2 ^ 64) - 2 ^ 63))
    with (- z + ((z + 2 ^ 63) / 2 ^ 64) * 2 ^ 64) by ring.
  apply int64_wrap_add_mul.
Qed.

(** [big.Int.Int64] keeps the residue modulo 2^64 of the number, read as
    a signed 64-bit integer. *)
Lemma Int64_wrap (u : avail_types.UCompact) :
  avail_types.Int64 u = avail_types.int64_wrap u.
Proof.
  unfold avail_types.Int64, avail_types.low64.
  rewrite int64_wrap_mod.
  destruct (u <? 0) eqn:Hneg.
  - apply Z.ltb_lt in Hneg. rewrite Z.abs_neq by lia.
    rewrite int64_wrap_opp_wrap. now rewrite Z.opp_involutive.
  - apply Z.ltb_ge in Hneg. now rewrite Z.abs_eq by lia.
Qed.

Lemma FromAvail_loop_Int64_ext (D : block.Decoders)
    (appID appID' : avail_types.UCompact) (callIdx : avail_types.CallIndex)
    (xs : list avail_types.Extrinsic) :
  avail_types.Int64 appID = avail_types.Int64 appID' ->
  forall acc,
    block.FromAvail_loop D xs appID callIdx acc
    = block.FromAvail_loop D xs appID' callIdx acc.
Proof.
  intros Heq. induction xs as [|x xs IH]; intros acc; [reflexivity|].
  rewrite !FromAvail_loop_cons. unfold codec.matches. rewrite Heq.
  destruct (_ && _); [|apply IH].
  destruct (codec.decode D x); [apply IH|reflexivity|apply IH].
Qed.

(** X5.  [FromAvail] compares application identifiers through
    [Int64()], that is modulo 2^64: two target identifiers that differ
    by a multiple of 2^64 select the same extrinsics and give the same
    result. *)
Theorem FromAvail_appID_modulo
    (D : block.Decoders) (avail_blk : avail_types.SignedBlock)
    (appID appID' : avail_types.UCompact) (callIdx : avail_types.CallIndex) :
  (appID - appID') mod 2 ^ 64 = 0 ->
  block.FromAvail D avail_blk appID callIdx
  = block.FromAvail D avail_blk appID' callIdx.
Proof.
  intros Hmod.
  assert (Heq : avail_types.Int64 appID = avail_types.Int64 appID').
  { rewrite !Int64_wrap.
    apply Z.mod_divide in Hmod; [|discriminate]. destruct Hmod as [k Hk].
    replace appID with (appID' + k * 2 ^ 64) by lia.
    apply int64_wrap_add_mul. }
  unfold block.FromAvail.
  now rewrite (FromAvail_loop_Int64_ext D appID appID' callIdx _ Heq).
Qed.

Lemma FromAvail_appID_modulo_witness :
  block.FromAvail fixtures.toyDecoders fixtures.mixedBlock
    (fixtures.appA + 2 ^ 64) fixtures.callA
  = (Some [fixtures.edgeBlock 5; fixtures.edgeBlock 6], None).
Proof.
  rewrite (FromAvail_appID_modulo fixtures.toyDecoders fixtures.mixedBlock
             (fixtures.appA + 2 ^ 64) fixtures.appA fixtures.callA eq_refl).
  reflexivity.
Defined.

(** X6.  As long as the target identifier and the identifier of an
    extrinsic fit in 64 bits (signed), the two tests of [FromAvail]
    select the extrinsic exactly when its application identifier and
    its call index equal the targets. *)
Theorem matches_exact_in_int64_range (appID : avail_types.UCompact)
    (callIdx : avail_types.CallIndex) (x : avail_types.Extrinsic) :
  - 2 ^ 63 <= appID < 2 ^ 63 ->
  - 2 ^ 63 <= avail_types.AppID (avail_types.Signature x) < 2 ^ 63 ->
  codec.matches appID callIdx x = true <->
  avail_types.AppID (avail_types.Signature x) = appID /\
  avail_types.CallIndex_ (avail_types.Method x) = callIdx.
Proof. apply matches_iff_equal. Qed.

Lemma matches_exact_in_int64_range_witness :
  codec.matches fixtures.appA fixtures.callA
    (fixtures.extrinsic fixtures.appB fixtures.callA [])
  = true
  <-> fixtures.appB = fixtures.appA /\ fixtures.callA = fixtures.callA.
Proof.
  apply (matches_exact_in_int64_range fixtures.appA fixtures.callA
           (fixtures.extrinsic fixtures.appB fixtures.callA [])).
  - unfold fixtures.appA. lia.
  - simpl. unfold fixtures.appB. lia.
Defined.

(* ------------------------------------------------------------------ *)
(** * Further properties of the syncer                                 *)
(* ------------------------------------------------------------------ *)

Section SyncerMore.

Import avail.
Context {W : Type}.
Variable D : block.Decoders.
Variable E : Env W.
Variable d : Avail.

Lemma gate_queries_app (t1 t2 : Trace) :
  sync.gate_queries (t1 ++ t2) = sync.gate_queries t1 ++ sync.gate_queries t2.
Proof.
  induction t1 as [|ev t1 IH]; [reflexivity|].
  destruct ev; simpl; rewrite IH; reflexivity.
Qed.

Lemma writes_app (t1 t2 : Trace) :
  sync.writes (t1 ++ t2) = sync.writes t1 ++ sync.writes t2.
Proof.
  induction t1 as [|ev t1 IH]; [reflexivity|].
  destruct ev; simpl; rewrite IH; reflexivity.
Qed.

Lemma no_gate_event_queries (t : Trace) :
  Forall (fun ev => resume.is_gate_event ev = false) t ->
  sync.gate_queries t = [] /\ sync.writes t = [].
Proof.
  induction 1 as [|ev t Hev _ [IH1 IH2]]; [now split|].
  destruct ev; simpl in *; try discriminate; now split.
Qed.

Lemma logs_no_gate_event (logs : Trace) :
  Forall (fun ev => resume.is_log ev = true) logs ->
  Forall (fun ev => resume.is_gate_event ev = false) logs.
Proof. apply Forall_impl. intros ev. now destruct ev. Qed.

(** In a gated trace the blocks written are among the blocks handed to
    the gate, in the same order. *)
Lemma gated_writes_subseq (t : Trace) :
  resume.gated t -> sync.subseq (sync.writes t) (sync.gate_queries t).
Proof.
  induction 1 as [|ev t Hev Hg IH|b t Hg IH|b e t Hg IH
                  |b logs source r t Hlogs Hg IH].
  - constructor.
  - destruct ev; simpl in *; try discriminate; exact IH.
  - simpl. now constructor.
  - simpl. now constructor.
  - simpl. rewrite writes_app, gate_queries_app.
    destruct (no_gate_event_queries logs (logs_no_gate_event logs Hlogs))
      as [-> ->].
    simpl. now apply sync.subseq_take.
Qed.

Lemma edge_trace_queries (b : types.Block) (fraud : bool)
    (err werr : option ExtError) :
  sync.gate_queries (resume.edge_trace d b fraud err werr) = [b].
Proof.
  unfold resume.edge_trace. destruct fraud; [reflexivity|].
  destruct err; [reflexivity|]. simpl.
  destruct (_ >? 0); destruct werr; reflexivity.
Qed.

(** The loop over the extracted blocks hands every one of them to the
    gate, in order, whatever the gate, the validator and the chain
    answer. *)
Lemma processEdgeBlocks_queries (edgeBlks : list types.Block) :
  forall w, exists t w',
    processEdgeBlocks E d edgeBlks w = Returned tt t w'
    /\ sync.gate_queries t = edgeBlks
    /\ Forall (fun ev => resume.edge_event ev = true) t.
Proof.
  induction edgeBlks as [|b rest IH]; intros w.
  - exists [], w. repeat split. constructor.
  - simpl. rewrite bind_prepend, processEdgeBlock_run.
    assert (Hone : exists fraud err werr w1,
      (let (fraud, w1) := fraudResolver_IsFraudProofBlock W E b w in
       if fraud then Returned tt (resume.edge_trace d b true None None) w1
       else
         let (err, w2) := validator_Check W E b w1 in
         match err with
         | Some e => Returned tt (resume.edge_trace d b false (Some e) None) w2
         | None =>
           let (werr, w3) := blockchain_WriteBlock W E b (nodeType d) w2 in
           Returned tt (resume.edge_trace d b false None werr) w3
         end) = Returned tt (resume.edge_trace d b fraud err werr) w1).
    { destruct (fraudResolver_IsFraudProofBlock W E b w) as [[|] w1].
      - now exists true, None, None, w1.
      - destruct (validator_Check W E b w1) as [[e|] w2].
        + now exists false, (Some e), None, w2.
        + destruct (blockchain_WriteBlock W E b (nodeType d) w2) as [werr w3].
          now exists false, None, werr, w3. }
    destruct Hone as (fraud & err & werr & w1 & ->).
    destruct (IH w1) as (t & w' & -> & Hq & Hev). simpl.
    eexists _, _. split; [reflexivity|]. split.
    + rewrite gate_queries_app, edge_trace_queries, Hq. reflexivity.
    + apply Forall_app. split; [|exact Hev].
      apply (edge_trace_gated d b fraud err werr).
Qed.

Lemma syncLoop_queries (hdr : avail_types.Header)
    (callIdx : avail_types.CallIndex) (sel : list Select) :
  forall n w,
    sync.gate_queries (trace_of (syncLoop D E d hdr callIdx sel n w))
    = sync.examined D d hdr callIdx sel.
Proof.
  induction sel as [|[blk|] rest IH]; intros n w.
  - reflexivity.
  - rewrite syncLoop_recv, trace_of_prepend. simpl sync.gate_queries.
    simpl sync.examined. unfold sync.unexpected, sync.blocks_of, sync.number.
    destruct (block.FromAvail D blk (availAppID d) callIdx) as [edgeBlks err].
    cbv zeta. simpl fst.
    match goal with |- context [if ?c then _ else _] => destruct c end.
    + rewrite trace_of_prepend. simpl. apply IH.
    + destruct (processEdgeBlocks_queries
                  (match edgeBlks with Some l => l | None => [] end) w)
        as (t & w1 & -> & Hq & _).
      rewrite trace_of_prepend, gate_queries_app, Hq. f_equal.
      destruct (avail_types.Number hdr =? _); [reflexivity|apply IH].
  - rewrite syncLoop_close.
    destruct (stakingNode_UnStake W E (signKey d) w) as [[e|] w1]; reflexivity.
Qed.

(** Once its loop runs, [syncNode] has no error left to return. *)
Lemma syncLoop_error_nil (hdr : avail_types.Header)
    (callIdx : avail_types.CallIndex) (sel : list Select) :
  forall n w res err t w',
    syncLoop D E d hdr callIdx sel n w = Returned (res, err) t w' ->
    err = None.
Proof.
  induction sel as [|[blk|] rest IH]; intros n w res err t w' Hrun.
  - discriminate.
  - rewrite syncLoop_recv in Hrun.
    destruct (block.FromAvail D blk (availAppID d) callIdx) as [edgeBlks e0].
    cbv zeta in Hrun.
    match type of Hrun with context [if ?c then _ else _] => destruct c end.
    + rewrite prepend_prepend in Hrun.
      destruct (syncLoop D E d hdr callIdx rest n w) as [[r e1] t1 w1|] eqn:Hrec;
        simpl in Hrun; [|discriminate].
      injection Hrun as _ <- _ _. exact (IH _ _ _ _ _ _ Hrec).
    + destruct (processEdgeBlocks_queries
                  (match edgeBlks with Some l => l | None => [] end) w)
        as (t0 & w1 & Hp & _). rewrite Hp in Hrun.
      rewrite prepend_prepend in Hrun.
      destruct (avail_types.Number hdr =? _).
      * simpl in Hrun. now injection Hrun as _ <- _ _.
      * destruct (syncLoop D E d hdr callIdx rest _ w1) as [[r e1] t1 w2|] eqn:Hrec;
          simpl in Hrun; [|discriminate].
        injection Hrun as _ <- _ _. exact (IH _ _ _ _ _ _ Hrec).
  - rewrite syncLoop_close in Hrun.
    destruct (stakingNode_UnStake W E (signKey d) w) as [r w1].
    now injection Hrun as _ <- _ _.
Qed.

Lemma syncLoop_no_stream (hdr : avail_types.Header)
    (callIdx : avail_types.CallIndex) (sel : list Select) :
  forall n w, Forall sync.not_stream (trace_of (syncLoop D E d hdr callIdx sel n w)).
Proof.
  induction sel as [|[blk|] rest IH]; intros n w.
  - constructor.
  - rewrite syncLoop_recv, trace_of_prepend.
    constructor; [now split|].
    destruct (block.FromAvail D blk (availAppID d) callIdx) as [edgeBlks err].
    cbv zeta.
    match goal with |- context [if ?c then _ else _] => destruct c end.
    + rewrite trace_of_prepend. constructor; [now split|apply IH].
    + destruct (processEdgeBlocks_queries
                  (match edgeBlks with Some l => l | None => [] end) w)
        as (t & w1 & -> & _ & Hev).
      rewrite trace_of_prepend. apply Forall_app. split.
      * revert Hev. apply Forall_impl. intros ev. now destruct ev.
      * destruct (avail_types.Number hdr =? _); [constructor|apply IH].
  - rewrite syncLoop_close.
    destruct (stakingNode_UnStake W E (signKey d) w) as [[e|] w1]; simpl;
      now repeat constructor.
Qed.

(** [syncNode] when the latest header and the call index are
    resolved. *)
Lemma syncNode_run_ok (sel : list Select) (w : W)
    (hdr : avail_types.Header) (w2 : W)
    (callIdx : avail_types.CallIndex) (w3 : W) :
  availClient_GetLatestHeader W E
    (world_of (getNextAvailBlockNumber D E d w)) = (Ok hdr, w2) ->
  avail_FindCallIndex W E w2 = (Ok callIdx, w3) ->
  exists n t0 w1,
    getNextAvailBlockNumber D E d w = Returned n t0 w1
    /\ Forall (fun ev => resume.processes_block ev = false) t0
    /\ syncNode D E d sel w
       = prepend (t0 ++ [EvGetLatestHeader (Ok hdr);
                         EvFindCallIndex (Ok callIdx); EvBlockStream n])
           (match syncLoop D E d hdr callIdx sel n
                    (availClient_BlockStream W E n w3) with
            | Returned res t w4 =>
              Returned res (t ++ [EvStreamClose])
                       (availBlockStream_Close W E w4)
            | Pending t w4 => Pending t w4
            end).
Proof.
  intros Hh Hc. rewrite syncNode_run.
  destruct (getNextAvailBlockNumber_returns D E d w) as (n & t0 & w1 & Ho & Hq).
  rewrite Ho in *. simpl in Hh. rewrite Hh, Hc.
  exists n, t0, w1. split; [reflexivity|]. split; [exact Hq|].
  now rewrite prepend_prepend.
Qed.

Lemma processes_block_no_gate (t : Trace) :
  Forall (fun ev => resume.processes_block ev = false) t ->
  Forall (fun ev => resume.is_gate_event ev = false) t.
Proof. apply Forall_impl. intros ev. now destruct ev. Qed.

End SyncerMore.

(** X7.  When the latest header and the call index are resolved, the
    settlement blocks that [syncNode] hands to the fraud gate are those
    of the DA blocks received, in the order of the stream and, within a
    DA block, of its extrinsics, leaving out the DA blocks the codec
    failed on, up to the DA block of the latest header or to the
    shutdown signal.  This is so whatever the gate, the validator and
    [WriteBlock] answer: a rejected block or a failed write does not
    keep the following blocks from being examined. *)
Theorem syncNode_examines_in_stream_order
    {W : Type} (D : block.Decoders) (E : avail.Env W) (d : avail.Avail)
    (sel : list avail.Select) (w : W)
    (hdr : avail_types.Header) (w2 : W)
    (callIdx : avail_types.CallIndex) (w3 : W) :
  avail.availClient_GetLatestHeader W E
    (avail.world_of (avail.getNextAvailBlockNumber D E d w)) = (Ok hdr, w2) ->
  avail.avail_FindCallIndex W E w2 = (Ok callIdx, w3) ->
  sync.gate_queries (avail.trace_of (avail.syncNode D E d sel w))
  = sync.examined D d hdr callIdx sel.
Proof.
  intros Hh Hc.
  destruct (syncNode_run_ok D E d sel w hdr w2 callIdx w3 Hh Hc)
    as (n & t0 & w1 & _ & Hq & ->).
  rewrite trace_of_prepend, !gate_queries_app.
  destruct (no_gate_event_queries t0 (processes_block_no_gate t0 Hq)) as [-> _].
  simpl.
  assert (Hl := syncLoop_queries D E d hdr callIdx sel n
                  (avail.availClient_BlockStream W E n w3)).
  destruct (avail.syncLoop D E d hdr callIdx sel n _) as [res t w4|t w4];
    simpl in *; [|exact Hl].
  rewrite gate_queries_app, Hl. simpl. apply app_nil_r.
Qed.

Lemma syncNode_examines_in_stream_order_witness :
  sync.gate_queries
    (avail.trace_of
       (avail.syncNode fixtures.toyDecoders fixtures.toyEnv
          fixtures.sequencerNode
          [avail.RecvBlock fixtures.scenarioBlock;
           avail.RecvBlock fixtures.foreignBlock;
           avail.RecvBlock fixtures.gateBlock;
           avail.RecvBlock fixtures.mixedBlock]
          fixtures.gateWorld))
  = [fixtures.edgeBlock 5; fixtures.edgeBlock 6; fixtures.edgeBlock 7].
Proof.
  rewrite (syncNode_examines_in_stream_order fixtures.toyDecoders
             fixtures.toyEnv fixtures.sequencerNode _ fixtures.gateWorld
             (avail_types.mkHeader 13) fixtures.gateWorld
             fixtures.callA fixtures.gateWorld eq_refl eq_refl).
  reflexivity.
Defined.

(** X8.  In every run of [syncNode] the blocks handed to [WriteBlock]
    form a subsequence of the blocks handed to the fraud gate: blocks
    are committed in the order in which they are examined, each
    examined block at most once, and no block that was not examined. *)
Theorem syncNode_commits_in_examination_order
    {W : Type} (D : block.Decoders) (E : avail.Env W) (d : avail.Avail)
    (sel : list avail.Select) (w : W) :
  sync.subseq
    (sync.writes (avail.trace_of (avail.syncNode D E d sel w)))
    (sync.gate_queries (avail.trace_of (avail.syncNode D E d sel w))).
Proof. apply gated_writes_subseq, syncNode_gated. Qed.

(** X9.  The only error [syncNode] ever returns is the one of
    [FindCallIndex]: when it returns a non-nil error, that call has just
    failed, the number returned is the resume point that
    [getNextAvailBlockNumber] computed, and the block stream was never
    opened.  Failures of the codec, of the validator, of [WriteBlock]
    and of [UnStake] are never returned. *)
Theorem syncNode_error_is_call_index_error
    {W : Type} (D : block.Decoders) (E : avail.Env W) (d : avail.Avail)
    (sel : list avail.Select) (w : W)
    (n : Z) (e : error) (t : avail.Trace) (w' : W) :
  avail.syncNode D E d sel w = avail.Returned (n, Some e) t w' ->
  exists e' hdr t0 w1,
    e = ErrExternal e'
    /\ avail.getNextAvailBlockNumber D E d w = avail.Returned n t0 w1
    /\ t = t0 ++ [avail.EvGetLatestHeader (Ok hdr);
                  avail.EvFindCallIndex (Err e')]
    /\ Forall (fun ev => resume.processes_block ev = false) t.
Proof.
  intros Hrun. rewrite syncNode_run in Hrun.
  destruct (getNextAvailBlockNumber_returns D E d w) as (n0 & t0 & w1 & Ho & Hq).
  rewrite Ho in Hrun.
  destruct (avail.availClient_GetLatestHeader W E w1) as [[hdr|e0] w2];
    [|simpl in Hrun; discriminate].
  destruct (avail.avail_FindCallIndex W E w2) as [[callIdx|e0] w3].
  - exfalso. rewrite prepend_prepend in Hrun.
    destruct (avail.syncLoop D E d hdr callIdx sel n0 _)
      as [[res err] t1 w4|t1 w4] eqn:Hloop; simpl in Hrun; [|discriminate].
    injection Hrun as _ Herr _ _.
    rewrite (syncLoop_error_nil D E d hdr callIdx sel _ _ _ _ _ _ Hloop) in Herr.
    discriminate.
  - simpl in Hrun. injection Hrun as <- <- <- <-.
    exists e0, hdr, t0, w1. repeat split; auto.
    apply Forall_app. split; [exact Hq|]. now repeat constructor.
Qed.

Lemma syncNode_error_is_call_index_error_witness :
  exists e' hdr t0 w1,
    ErrExternal "metadata: call not found"%string = ErrExternal e'
    /\ avail.getNextAvailBlockNumber fixtures.toyDecoders
         scenarios.noCallIndexEnv fixtures.sequencerNode fixtures.resumeWorld
       = avail.Returned 13 t0 w1
    /\ [avail.EvHeader (types.mkHeader 6 [] []);
        avail.EvSearchBlock 0 6 (Ok fixtures.mixedBlock);
        avail.EvGetLatestHeader (Ok (avail_types.mkHeader 13));
        avail.EvFindCallIndex (Err "metadata: call not found"%string)]
       = t0 ++ [avail.EvGetLatestHeader (Ok hdr); avail.EvFindCallIndex (Err e')]
    /\ Forall (fun ev => resume.processes_block ev = false)
         [avail.EvHeader (types.mkHeader 6 [] []);
          avail.EvSearchBlock 0 6 (Ok fixtures.mixedBlock);
          avail.EvGetLatestHeader (Ok (avail_types.mkHeader 13));
          avail.EvFindCallIndex (Err "metadata: call not found"%string)].
Proof.
  exact (syncNode_error_is_call_index_error fixtures.toyDecoders
           scenarios.noCallIndexEnv fixtures.sequencerNode
           [avail.RecvBlock fixtures.gateBlock] fixtures.resumeWorld
           13 (ErrExternal "metadata: call not found"%string)
           [avail.EvHeader (types.mkHeader 6 [] []);
            avail.EvSearchBlock 0 6 (Ok fixtures.mixedBlock);
            avail.EvGetLatestHeader (Ok (avail_types.mkHeader 13));
            avail.EvFindCallIndex (Err "metadata: call not found"%string)]
           fixtures.resumeWorld eq_refl).
Defined.

Section StreamFacts.

Import avail.

Lemma opens_app (t1 t2 : Trace) :
  sync.opens (t1 ++ t2) = (sync.opens t1 + sync.opens t2)%nat.
Proof. unfold sync.opens. now rewrite filter_app, length_app. Qed.

Lemma closes_app (t1 t2 : Trace) :
  sync.closes (t1 ++ t2) = (sync.closes t1 + sync.closes t2)%nat.
Proof. unfold sync.closes. now rewrite filter_app, length_app. Qed.

Lemma not_stream_counts (t : Trace) :
  Forall sync.not_stream t -> sync.opens t = 0%nat /\ sync.closes t = 0%nat.
Proof.
  unfold sync.opens, sync.closes.
  induction 1 as [|ev t [Ho Hc] _ [IH1 IH2]]; [now split|].
  simpl. rewrite Ho, Hc. now split.
Qed.

Lemma processes_block_not_stream (t : Trace) :
  Forall (fun ev => resume.processes_block ev = false) t ->
  Forall sync.not_stream t.
Proof. apply Forall_impl. intros ev. destruct ev; simpl; try discriminate; now split. Qed.

End StreamFacts.

(** X10.  [syncNode] opens the block stream at most once, and the
    deferred close is paired with it: a run that has returned has closed
    the stream as often as it opened it, and when it did the close is
    its last event; a run that has not returned has the stream open and
    has not closed it. *)
Theorem syncNode_closes_what_it_opens
    {W : Type} (D : block.Decoders) (E : avail.Env W) (d : avail.Avail)
    (sel : list avail.Select) (w : W) :
  let o := avail.syncNode D E d sel w in
  let t := avail.trace_of o in
  (sync.opens t <= 1)%nat
  /\ (forall a t' w', o = avail.Returned a t' w' ->
        sync.closes t = sync.opens t
        /\ (sync.opens t = 1%nat ->
            exists t0, t = t0 ++ [avail.EvStreamClose]))
  /\ (forall t' w', o = avail.Pending t' w' ->
        sync.opens t = 1%nat /\ sync.closes t = 0%nat).
Proof.
  intros o t. unfold t, o. rewrite syncNode_run.
  destruct (getNextAvailBlockNumber_returns D E d w) as (n & t0 & w1 & -> & Hq).
  destruct (not_stream_counts t0 (processes_block_not_stream t0 Hq)) as [Ho0 Hc0].
  destruct (avail.availClient_GetLatestHeader W E w1) as [[hdr|e] w2].
  - destruct (avail.avail_FindCallIndex W E w2) as [[callIdx|e] w3].
    + rewrite prepend_prepend.
      assert (Hl := syncLoop_no_stream D E d hdr callIdx sel n
                      (avail.availClient_BlockStream W E n w3)).
      destruct (avail.syncLoop D E d hdr callIdx sel n _) as [res t1 w4|t1 w4];
        simpl in Hl; destruct (not_stream_counts t1 Hl) as [Ho1 Hc1]; simpl.
      * rewrite !opens_app, !closes_app, Ho0, Hc0, Ho1, Hc1.
        unfold sync.opens, sync.closes. simpl.
        split; [lia|]. split; [|intros; discriminate].
        intros a t' w' _. split; [reflexivity|]. intros _.
        exists (t0 ++ [avail.EvGetLatestHeader (Ok hdr);
                       avail.EvFindCallIndex (Ok callIdx);
                       avail.EvBlockStream n] ++ t1).
        rewrite <- !app_assoc. reflexivity.
      * rewrite !opens_app, !closes_app, Ho0, Hc0, Ho1, Hc1.
        unfold sync.opens, sync.closes. simpl.
        split; [lia|]. split; [intros; discriminate|].
        intros t' w' _. now split.
    + simpl. rewrite !opens_app, !closes_app, Ho0, Hc0.
      unfold sync.opens, sync.closes. simpl.
      split; [lia|]. split; [|intros; discriminate].
      intros a t' w' _. split; [reflexivity|]. discriminate.
  - simpl. rewrite !opens_app, !closes_app, Ho0, Hc0.
      unfold sync.opens, sync.closes. simpl.
    split; [lia|]. split; [|intros; discriminate].
    intros a t' w' _. split; [reflexivity|]. discriminate.
Qed.

Section CatchUpFacts.

Import avail.
Context {W : Type}.
Variable D : block.Decoders.
Variable E : Env W.
Variable d : Avail.

(** The loop of [syncNode] ends at the first DA block that is not
    skipped and carries the number of the latest header, and reads no
    further. *)
Lemma syncLoop_catch_up (hdr : avail_types.Header)
    (callIdx : avail_types.CallIndex)
    (pre : list avail_types.SignedBlock) (blk : avail_types.SignedBlock)
    (post : list Select) :
  Forall (fun b => sync.passes D d hdr callIdx b = true) pre ->
  sync.passes D d hdr callIdx blk = false ->
  forall n w,
    syncLoop D E d hdr callIdx (map RecvBlock pre ++ RecvBlock blk :: post) n w
    = syncLoop D E d hdr callIdx (map RecvBlock pre ++ [RecvBlock blk]) n w
    /\ exists t w',
         syncLoop D E d hdr callIdx (map RecvBlock pre ++ [RecvBlock blk]) n w
         = Returned (avail_types.Number hdr, None) t w'.
Proof.
  intros Hpre Hblk. induction Hpre as [|b pre Hb Hpre IH]; intros n w.
  - simpl app. rewrite !syncLoop_recv.
    unfold sync.passes, sync.unexpected, sync.number in Hblk.
    destruct (block.FromAvail D blk (availAppID d) callIdx) as [edgeBlks err].
    cbv zeta.
    apply orb_false_iff in Hblk. destruct Hblk as [Hu Hn].
    rewrite Hu. apply negb_false_iff in Hn. rewrite Hn.
    destruct (processEdgeBlocks_queries E d
                (match edgeBlks with Some l => l | None => [] end) w)
      as (t & w1 & -> & _).
    split; [reflexivity|].
    apply Z.eqb_eq in Hn. rewrite <- Hn. simpl. now eexists _, _.
  - simpl app. simpl map. rewrite !syncLoop_recv.
    unfold sync.passes, sync.unexpected, sync.number in Hb.
    destruct (block.FromAvail D b (availAppID d) callIdx) as [edgeBlks err].
    cbv zeta. cbv beta iota zeta in Hb.
    match goal with |- context [if ?c then _ else _] => destruct c eqn:Hc end.
    + destruct (IH n w) as [-> (t & w' & ->)].
      split; [reflexivity|]. simpl. now eexists _, _.
    + simpl in Hb. apply negb_true_iff in Hb. rewrite Hb.
      destruct (processEdgeBlocks_queries E d
                  (match edgeBlks with Some l => l | None => [] end) w)
        as (t & w1 & -> & _).
      destruct (IH (avail_types.Number
                      (avail_types.Header_ (avail_types.Block_ b))) w1)
        as [-> (t' & w' & ->)].
      split; [reflexivity|]. simpl. now eexists _, _.
Qed.

End CatchUpFacts.

(** X11.  When the latest header and the call index are resolved and
    the stream delivers, after DA blocks that are skipped or carry
    another number, a DA block that is not skipped and carries the
    number of the latest header, [syncNode] returns that number with a
    nil error after closing the stream, and what the stream or the
    shutdown channel would have delivered after that block plays no
    part. *)
Theorem syncNode_catches_up
    {W : Type} (D : block.Decoders) (E : avail.Env W) (d : avail.Avail)
    (pre : list avail_types.SignedBlock) (blk : avail_types.SignedBlock)
    (post : list avail.Select) (w : W)
    (hdr : avail_types.Header) (w2 : W)
    (callIdx : avail_types.CallIndex) (w3 : W) :
  avail.availClient_GetLatestHeader W E
    (avail.world_of (avail.getNextAvailBlockNumber D E d w)) = (Ok hdr, w2) ->
  avail.avail_FindCallIndex W E w2 = (Ok callIdx, w3) ->
  Forall (fun b => sync.passes D d hdr callIdx b = true) pre ->
  sync.passes D d hdr callIdx blk = false ->
  avail.syncNode D E d (map avail.RecvBlock pre ++ avail.RecvBlock blk :: post) w
  = avail.syncNode D E d (map avail.RecvBlock pre ++ [avail.RecvBlock blk]) w
  /\ exists t w',
       avail.syncNode D E d (map avail.RecvBlock pre ++ [avail.RecvBlock blk]) w
       = avail.Returned (avail_types.Number hdr, None)
           (t ++ [avail.EvStreamClose]) w'.
Proof.
  intros Hh Hc Hpre Hblk.
  destruct (syncNode_run_ok D E d
              (map avail.RecvBlock pre ++ avail.RecvBlock blk :: post)
              w hdr w2 callIdx w3 Hh Hc) as (n & t0 & w1 & Ho & _ & ->).
  destruct (syncNode_run_ok D E d
              (map avail.RecvBlock pre ++ [avail.RecvBlock blk])
              w hdr w2 callIdx w3 Hh Hc) as (n' & t0' & w1' & Ho' & _ & ->).
  rewrite Ho in Ho'. injection Ho' as <- <- <-.
  destruct (syncLoop_catch_up D E d hdr callIdx pre blk post Hpre Hblk n
              (avail.availClient_BlockStream W E n w3))
    as [-> (t & w' & ->)].
  split; [reflexivity|]. simpl.
  exists ((t0 ++ [avail.EvGetLatestHeader (Ok hdr);
                  avail.EvFindCallIndex (Ok callIdx);
                  avail.EvBlockStream n]) ++ t), (avail.availBlockStream_Close W E w').
  now rewrite <- !app_assoc.
Qed.

Lemma syncNode_catches_up_witness :
  avail.syncNode fixtures.toyDecoders fixtures.toyEnv fixtures.sequencerNode
    (map avail.RecvBlock [fixtures.foreignBlock; fixtures.scenarioBlock]
     ++ avail.RecvBlock fixtures.gateBlock
     :: [avail.RecvBlock fixtures.mixedBlock; avail.CloseCh])
    fixtures.gateWorld
  = avail.syncNode fixtures.toyDecoders fixtures.toyEnv fixtures.sequencerNode
      (map avail.RecvBlock [fixtures.foreignBlock; fixtures.scenarioBlock]
       ++ [avail.RecvBlock fixtures.gateBlock])
      fixtures.gateWorld.
Proof.
  refine (proj1 (syncNode_catches_up fixtures.toyDecoders fixtures.toyEnv
                   fixtures.sequencerNode
                   [fixtures.foreignBlock; fixtures.scenarioBlock]
                   fixtures.gateBlock
                   [avail.RecvBlock fixtures.mixedBlock; avail.CloseCh]
                   fixtures.gateWorld (avail_types.mkHeader 13)
                   fixtures.gateWorld fixtures.callA fixtures.gateWorld
                   eq_refl eq_refl _ eq_refl)).
  repeat constructor.
Defined.

(** X12.  A DA block in which a target extrinsic fails at the
    settlement-block stage is skipped whole by the loop of [syncNode]:
    a warning is logged, none of its settlement blocks is examined, the
    resume point is not advanced, and the loop does not end on it even
    when it is the DA block of the latest header; the loop goes on with
    what the [select] yields next. *)
Theorem syncLoop_skips_corrupt_block
    {W : Type} (D : block.Decoders) (E : avail.Env W) (d : avail.Avail)
    (hdr : avail_types.Header) (callIdx : avail_types.CallIndex)
    (blk : avail_types.SignedBlock) (rest : list avail.Select)
    (n : Z) (w : W) :
  (exists x, In x (avail_types.Extrinsics (avail_types.Block_ blk))
             /\ codec.corrupt D (avail.availAppID d) callIdx x = true) ->
  avail.syncLoop D E d hdr callIdx (avail.RecvBlock blk :: rest) n w
  = avail.prepend
      [avail.EvSelect (avail.RecvBlock blk);
       avail.EvLog avail.Warn
         "unexpected error while extracting SL blocks from Avail block"]
      (avail.syncLoop D E d hdr callIdx rest n w).
Proof.
  intros Hex.
  destruct (FromAvail_corrupt_error D blk (avail.availAppID d) callIdx Hex)
    as [e He].
  rewrite syncLoop_recv, He. simpl. now rewrite prepend_prepend.
Qed.

Lemma syncLoop_skips_corrupt_block_witness :
  avail.syncLoop fixtures.toyDecoders fixtures.toyEnv fixtures.sequencerNode
    (avail_types.mkHeader 12) fixtures.callA
    [avail.RecvBlock fixtures.scenarioBlock] 1 fixtures.gateWorld
  = avail.Pending
      [avail.EvSelect (avail.RecvBlock fixtures.scenarioBlock);
       avail.EvLog avail.Warn
         "unexpected error while extracting SL blocks from Avail block"]
      fixtures.gateWorld.
Proof.
  rewrite (syncLoop_skips_corrupt_block fixtures.toyDecoders fixtures.toyEnv
             fixtures.sequencerNode (avail_types.mkHeader 12) fixtures.callA
             fixtures.scenarioBlock [] 1 fixtures.gateWorld).
  - reflexivity.
  - exists (fixtures.extrinsic fixtures.appA fixtures.callA
              fixtures.corruptPayload).
    split; [simpl; auto|reflexivity].
Defined.

(** X13.  The search predicate [syncFunc] has three answers, and which
    one it gives is decided by the DA block: a decode error of the
    codec, passed on with offset -1 and no match, when a target
    extrinsic is corrupt; no match, offset -1 and a nil error, when no
    target is corrupt and no settlement block of the DA block has the
    target number (also when the codec found nothing: the sentinel is
    never passed on as an error); or a match at the number of the DA
    block with a nil error, when no target is corrupt and one has. *)
Theorem syncFunc_answers
    (D : block.Decoders) (d : avail.Avail)
    (availBlk : avail_types.SignedBlock) (target : Z)
    (callIdx : avail_types.CallIndex) :
  let r := avail.syncFunc D d availBlk target callIdx in
  (exists e,
     block.FromAvail D availBlk (avail.availAppID d) callIdx
       = (None, Some (ErrExternal e))
     /\ ~ resume.intact D d callIdx availBlk
     /\ r = (-1, false, Some (ErrExternal e)))
  \/ (resume.intact D d callIdx availBlk
      /\ ~ resume.carries D d callIdx availBlk target
      /\ ~ resume.embeds D d callIdx availBlk target
      /\ r = (-1, false, None))
  \/ (resume.intact D d callIdx availBlk
      /\ resume.carries D d callIdx availBlk target
      /\ resume.embeds D d callIdx availBlk target
      /\ r = (sync.number availBlk, true, None)).
Proof.
  intros r.
  assert (Hthree :
    (exists e,
       block.FromAvail D availBlk (avail.availAppID d) callIdx
         = (None, Some (ErrExternal e))
       /\ r = (-1, false, Some (ErrExternal e)))
    \/ (~ resume.embeds D d callIdx availBlk target /\ r = (-1, false, None))
    \/ (resume.embeds D d callIdx availBlk target
        /\ r = (sync.number availBlk, true, None))).
  { destruct (FromAvail_shape D availBlk (avail.availAppID d) callIdx)
      as [[[|e] He]|(b & l & Hl)].
    - right. left. split.
      + intros (l & b & Hc & _). rewrite He in Hc. discriminate.
      + now apply syncFunc_none_found.
    - left. exists e. split; [exact He|]. now apply syncFunc_decode_error.
    - destruct (resume.found r) eqn:Hf.
      + right. right. split.
        * now apply syncFunc_found_iff.
        * now apply syncFunc_found_at.
      + right. left. split.
        * intros Hemb. apply syncFunc_found_iff in Hemb. fold r in Hemb.
          congruence.
        * unfold r, resume.found, avail.syncFunc in *. rewrite Hl in *.
          cbv zeta iota in *.
          replace (Z.of_nat (List.length (b :: l)) <? 1) with false in *
            by (symmetry; apply Z.ltb_ge; simpl List.length; lia).
          cbv iota in *. rewrite syncFunc_range_spec in *.
          destruct (existsb _ (b :: l)); [discriminate|reflexivity]. }
  assert (Hclean : snd r = None -> resume.intact D d callIdx availBlk)
    by (intros H; now apply (syncFunc_no_error_iff D d availBlk target callIdx)).
  destruct Hthree as [(e & He & Hr)|[(Hno & Hr)|(Hemb & Hr)]].
  - left. exists e. split; [exact He|]. split; [|exact Hr].
    intros Hin.
    apply (syncFunc_no_error_iff D d availBlk target callIdx) in Hin.
    fold r in Hin. rewrite Hr in Hin. discriminate.
  - right. left.
    assert (Hin : resume.intact D d callIdx availBlk)
      by (apply Hclean; now rewrite Hr).
    split; [exact Hin|]. split; [|split; [exact Hno|exact Hr]].
    intros Hcar. apply Hno. apply embeds_iff. now split.
  - right. right. apply embeds_iff in Hemb as Hboth.
    destruct Hboth as [Hin Hcar]. now repeat split.
Qed.

(** X14.  When the local chain is past genesis and the search of the DA
    history fails, [syncNode] does not give up: it logs the failure and,
    once the latest header and the call index are resolved, subscribes
    to the block stream from DA block 0. *)
Theorem syncNode_resumes_from_zero_on_search_failure
    {W : Type} (D : block.Decoders) (E : avail.Env W) (d : avail.Avail)
    (sel : list avail.Select) (w : W)
    (head : types.Header) (w1 : W) (e : ExtError) (w2 : W)
    (hdr : avail_types.Header) (w3 : W)
    (callIdx : avail_types.CallIndex) (w4 : W) :
  avail.blockchain_Header W E w = (head, w1) ->
  types.Number head <> 0 ->
  avail.availClient_SearchBlock W E 0 (types.Number head)
    (avail.syncFunc D d) w1 = (Err e, w2) ->
  avail.availClient_GetLatestHeader W E w2 = (Ok hdr, w3) ->
  avail.avail_FindCallIndex W E w3 = (Ok callIdx, w4) ->
  exists rest,
    avail.trace_of (avail.syncNode D E d sel w)
    = [avail.EvHeader head;
       avail.EvSearchBlock 0 (types.Number head) (Err e);
       avail.EvLog avail.Error "failure to sync node";
       avail.EvGetLatestHeader (Ok hdr);
       avail.EvFindCallIndex (Ok callIdx);
       avail.EvBlockStream 0] ++ rest
    /\ sync.opens rest = 0%nat.
Proof.
  intros Hhead HM Hs Hh Hc.
  rewrite syncNode_run, getNextAvailBlockNumber_run, Hhead.
  apply Z.eqb_neq in HM. rewrite HM, Hs, Hh, Hc.
  rewrite prepend_prepend.
  assert (Hl := syncLoop_no_stream D E d hdr callIdx sel 0
                  (avail.availClient_BlockStream W E 0 w4)).
  destruct (avail.syncLoop D E d hdr callIdx sel 0 _) as [res t w5|t w5];
    simpl in *; destruct (not_stream_counts t Hl) as [Ho _].
  - exists (t ++ [avail.EvStreamClose]). split; [reflexivity|].
    rewrite opens_app, Ho. reflexivity.
  - exists t. split; [reflexivity|exact Ho].
Qed.

Lemma syncNode_resumes_from_zero_on_search_failure_witness :
  exists rest,
    avail.trace_of
      (avail.syncNode fixtures.toyDecoders fixtures.toyEnv
         fixtures.sequencerNode [avail.RecvBlock fixtures.gateBlock]
         scenarios.lostWorld)
    = [avail.EvHeader (types.mkHeader 6 [] []);
       avail.EvSearchBlock 0 6 (Err "block not found"%string);
       avail.EvLog avail.Error "failure to sync node";
       avail.EvGetLatestHeader (Ok (avail_types.mkHeader 13));
       avail.EvFindCallIndex (Ok fixtures.callA);
       avail.EvBlockStream 0] ++ rest
    /\ sync.opens rest = 0%nat.
Proof.
  refine (syncNode_resumes_from_zero_on_search_failure fixtures.toyDecoders
            fixtures.toyEnv fixtures.sequencerNode
            [avail.RecvBlock fixtures.gateBlock] scenarios.lostWorld
            (types.mkHeader 6 [] []) scenarios.lostWorld
            "block not found"%string scenarios.lostWorld
            (avail_types.mkHeader 13) scenarios.lostWorld
            fixtures.callA scenarios.lostWorld
            eq_refl _ eq_refl eq_refl eq_refl).
  simpl. discriminate.
Defined.

(* ------------------------------------------------------------------ *)
(** * Further properties of staking                                    *)
(* ------------------------------------------------------------------ *)

Section WorkerFacts.

Import avail.
Context {W : Type}.
Variable E : Env W.
Variable activeSequencers_Contains : types.Address -> W -> result bool * W.

Lemma waitForStakedSequencer_shape (fuel : nat) (nodeAddr : types.Address) :
  forall w, exists rs,
    Forall (fun r => stake.staked_answer r = false) rs
    /\ ((exists t w',
           worker.waitForStakedSequencer E activeSequencers_Contains
             fuel nodeAddr w = Pending t w'
           /\ stake.answers t = rs /\ stake.naps t = List.length rs
           /\ List.length rs = fuel)
        \/ (exists t w',
              worker.waitForStakedSequencer E activeSequencers_Contains
                fuel nodeAddr w = Returned true t w'
              /\ stake.answers t = rs ++ [Ok true]
              /\ stake.naps t = List.length rs)).
Proof.
  induction fuel as [|fuel IH]; intros w.
  - exists []. split; [constructor|]. left. exists [], w. now repeat split.
  - simpl worker.waitForStakedSequencer. rewrite bind_call.
    destruct (activeSequencers_Contains nodeAddr w) as [[[|]|e] w1];
      cbn [negb].
    + exists []. split; [constructor|]. right.
      eexists _, _. split; [reflexivity|]. now split.
    + rewrite bind_log, (bind_sleep E).
      destruct (IH (time_Sleep W E 3 w1)) as (rs & Hrs & Hcase).
      exists (Ok false :: rs). split; [now constructor|].
      destruct Hcase as [(t & w' & -> & Ha & Hn & Hl)|(t & w' & -> & Ha & Hn)];
        [left|right]; eexists _, _; (split; [reflexivity|]); simpl;
        unfold stake.naps in *; simpl; rewrite Ha, Hn; repeat split; auto.
    + rewrite bind_log, (bind_sleep E).
      destruct (IH (time_Sleep W E 3 w1)) as (rs & Hrs & Hcase).
      exists (Err e :: rs). split; [now constructor|].
      destruct Hcase as [(t & w' & -> & Ha & Hn & Hl)|(t & w' & -> & Ha & Hn)];
        [left|right]; eexists _, _; (split; [reflexivity|]); simpl;
        unfold stake.naps in *; simpl; rewrite Ha, Hn; repeat split; auto.
Qed.

End WorkerFacts.

(** X19.  [waitForStakedSequencer] never gives up and never returns
    [false]: a failed query and the answer "not staked" are both
    followed by a sleep of 3 s and another query, for as long as the
    function is observed, and it returns [true] only right after the
    querier answered "staked" without an error. *)
Theorem waitForStakedSequencer_returns_only_staked
    {W : Type} (E : avail.Env W)
    (activeSequencers_Contains : types.Address -> W -> result bool * W)
    (fuel : nat) (nodeAddr : types.Address) (w : W) :
  let o := worker.waitForStakedSequencer E activeSequencers_Contains
             fuel nodeAddr w in
  (forall a t w', o = avail.Returned a t w' ->
     a = true
     /\ exists rs,
          stake.answers t = rs ++ [Ok true]
          /\ Forall (fun r => stake.staked_answer r = false) rs
          /\ stake.naps t = List.length rs)
  /\ (forall t w', o = avail.Pending t w' ->
        List.length (stake.answers t) = fuel
        /\ Forall (fun r => stake.staked_answer r = false) (stake.answers t)
        /\ stake.naps t = fuel).
Proof.
  intros o.
  destruct (waitForStakedSequencer_shape E activeSequencers_Contains
              fuel nodeAddr w)
    as (rs & Hrs & [(t & w' & Ho & Ha & Hn & Hl)|(t & w' & Ho & Ha & Hn)]);
    fold o in Ho; rewrite Ho; split.
  - intros; discriminate.
  - intros t' w'' Heq. injection Heq as <- <-.
    rewrite Ha, Hn. now repeat split.
  - intros a t' w'' Heq. injection Heq as <- <- <-.
    split; [reflexivity|]. now exists rs.
  - intros; discriminate.
Qed.

Section DirectFacts.

Import avail.
Context {W : Type}.
Variable E : Env W.
Variable d : Avail.

Ltac run_calls :=
  repeat match goal with
         | |- context [match ?c with pair _ _ => _ end] =>
           let r := fresh "r" in destruct c as [r ?]; destruct r
         end.

Ltac find_event := repeat first [left; reflexivity | right].

Ltac split_in H :=
  simpl in H;
  repeat match type of H with
         | _ \/ _ => destruct H as [H|H]
         | False => destruct H
         end.

Lemma bind_ret {A B} (a : A) (k : A -> M W B) (w : W) :
  bind (ret a) k w = k a w.
Proof. unfold bind, ret. now destruct (k a w). Qed.

(** The direct-block path without its wait. *)
Lemma stakeParticipant_direct (fuel : nat) (nodeType_ : MechanismType) (w : W)
    (e : option error) (t : Trace) (w' : W) :
  stakeParticipant E d fuel false nodeType_ w = Returned e t w' ->
  (forall b source r,
     In (EvWriteBlock b source r) t ->
     source = nodeType d
     /\ In (EvBuild (Ok b)) t
     /\ In (EvSendAndWaitForStatus b None) t)
  /\ (e = None <-> exists b, In (EvWriteBlock b (nodeType d) None) t)
  /\ (forall r res, In (EvStakeTx r res) t -> r = nodeType_)
  /\ Forall (fun ev => match ev with
                       | EvAddTx _ _ | EvContains _ _ | EvInProbation _
                       | EvGetBootnodeConnCount _ => False
                       | _ => True
                       end) t.
Proof.
  unfold stakeParticipant, bind, call, act, log, ret. cbv zeta.
  run_calls; intros Hrun; injection Hrun as <- <- <-; simpl;
    (split; [|split; [|split]]);
    try (intros b source r Hin; split_in Hin; try discriminate;
         injection Hin as <- <- <-;
         (split; [reflexivity|split; find_event]));
    try (split;
         [ intros Hnone; try discriminate; eexists; find_event
         | intros [b Hin]; split_in Hin; try discriminate; reflexivity ]);
    try (intros r res Hin; split_in Hin; try discriminate;
         now injection Hin as <- _);
    try (now repeat constructor).
Qed.

Lemma stakeParticipant_wait_events (fuel : nat) :
  forall w,
    Forall (fun ev => match ev with
                      | EvGetBootnodeConnCount _ | EvSleep _ => True
                      | _ => False
                      end)
           (trace_of (stakeParticipant_wait E fuel w)).
Proof.
  induction fuel as [|fuel IH]; intros w; [constructor|].
  simpl. rewrite bind_call.
  destruct (network_GetBootnodeConnCount W E w) as [c w1].
  destruct (c >? 0); simpl; [now repeat constructor|].
  rewrite (bind_sleep E). rewrite !trace_of_prepend.
  constructor; [exact I|]. constructor; [exact I|]. apply IH.
Qed.

Lemma stakeParticipant_waiting (fuel : nat) (nodeType_ : MechanismType) (w : W) :
  stakeParticipant E d fuel true nodeType_ w =
  match stakeParticipant_wait E fuel w with
  | Returned _ t0 w0 => prepend t0 (stakeParticipant E d fuel false nodeType_ w0)
  | Pending t0 w0 => Pending t0 w0
  end.
Proof.
  unfold stakeParticipant. cbv zeta. rewrite bind_prepend.
  destruct (stakeParticipant_wait E fuel w) as [[] t0 w0|t0 w0]; [|reflexivity].
  f_equal. now rewrite bind_ret.
Qed.

End DirectFacts.

(** X15.  Whenever [stakeParticipant] returns: a block it wrote to the
    local chain is the block it built, written under the node's own
    role and only after the DA chain accepted it
    ([SendAndWaitForStatus] returned no error); it returns a nil error
    exactly when that write took place and succeeded; its stake
    transaction is for the role it was called with; and it never uses
    the transaction pool or the participant querier. *)
Theorem stakeParticipant_writes_what_was_sent
    {W : Type} (E : avail.Env W) (d : avail.Avail)
    (fuel : nat) (shouldWait : bool) (nodeType_ : avail.MechanismType)
    (w : W) (e : option error) (t : avail.Trace) (w' : W) :
  avail.stakeParticipant E d fuel shouldWait nodeType_ w
    = avail.Returned e t w' ->
  (forall b source r,
     In (avail.EvWriteBlock b source r) t ->
     source = avail.nodeType d
     /\ In (avail.EvBuild (Ok b)) t
     /\ In (avail.EvSendAndWaitForStatus b None) t)
  /\ (e = None <->
      exists b, In (avail.EvWriteBlock b (avail.nodeType d) None) t)
  /\ (forall r res, In (avail.EvStakeTx r res) t -> r = nodeType_)
  /\ Forall (fun ev => match ev with
                       | avail.EvAddTx _ _ | avail.EvContains _ _
                       | avail.EvInProbation _ => False
                       | _ => True
                       end) t.
Proof.
  intros Hrun. destruct shouldWait.
  - rewrite stakeParticipant_waiting in Hrun.
    assert (Hw := stakeParticipant_wait_events E fuel w).
    destruct (avail.stakeParticipant_wait E fuel w) as [[] t0 w0|t0 w0];
      [|discriminate].
    simpl in Hw.
    destruct (avail.stakeParticipant E d fuel false nodeType_ w0)
      as [e1 t1 w1|t1 w1] eqn:Hdirect; simpl in Hrun; [|discriminate].
    injection Hrun as <- <- <-.
    destruct (stakeParticipant_direct E d fuel nodeType_ w0 e1 t1 w1 Hdirect)
      as (H1 & H2 & H3 & H4).
    assert (Hnot : forall ev, In ev t0 ->
                     match ev with
                     | avail.EvGetBootnodeConnCount _ | avail.EvSleep _ => True
                     | _ => False
                     end)
      by (now apply Forall_forall).
    split; [|split; [|split]].
    + intros b source r Hin. apply in_app_or in Hin.
      destruct Hin as [Hin|Hin]; [destruct (Hnot _ Hin)|].
      destruct (H1 _ _ _ Hin) as (Hs & Hb & Hsend).
      split; [exact Hs|]. split; apply in_or_app; now right.
    + rewrite H2. split.
      * intros [b Hin]. exists b. apply in_or_app. now right.
      * intros [b Hin]. exists b. apply in_app_or in Hin.
        destruct Hin as [Hin|Hin]; [destruct (Hnot _ Hin)|exact Hin].
    + intros r res Hin. apply in_app_or in Hin.
      destruct Hin as [Hin|Hin]; [destruct (Hnot _ Hin)|].
      exact (H3 _ _ Hin).
    + apply Forall_app. split.
      * revert Hw. apply Forall_impl. intros ev. now destruct ev.
      * revert H4. apply Forall_impl. intros ev. now destruct ev.
  - destruct (stakeParticipant_direct E d fuel nodeType_ w e t w' Hrun)
      as (H1 & H2 & H3 & H4).
    split; [exact H1|]. split; [exact H2|]. split; [exact H3|].
    revert H4. apply Forall_impl. intros ev. now destruct ev.
Qed.

Lemma stakeParticipant_writes_what_was_sent_witness :
  exists b,
    In (avail.EvWriteBlock b avail.BootstrapSequencer None)
       (avail.trace_of
          (avail.stakeParticipant fixtures.toyEnv fixtures.bootstrapNode 3
             true avail.Sequencer fixtures.fullPoolWorld)).
Proof.
  apply (proj1 (proj1 (proj2 (stakeParticipant_writes_what_was_sent
                  fixtures.toyEnv fixtures.bootstrapNode 3 true avail.Sequencer
                  fixtures.fullPoolWorld None
                  (avail.trace_of
                     (avail.stakeParticipant fixtures.toyEnv
                        fixtures.bootstrapNode 3 true avail.Sequencer
                        fixtures.fullPoolWorld))
                  (avail.world_of
                     (avail.stakeParticipant fixtures.toyEnv
                        fixtures.bootstrapNode 3 true avail.Sequencer
                        fixtures.fullPoolWorld))
                  eq_refl)))).
  reflexivity.
Defined.

(** X18.  A turn of the staking loop makes no staking attempt unless
    the querier has just answered, without error, that the node is not
    in probation and not staked: when the probation query fails or
    answers "in probation", or the status query fails or answers
    "staked", the turn builds, signs, submits and writes nothing, backs
    off for 3 to 5 seconds, leaves [returnErr] as it was and does not
    end the goroutine. *)
Theorem ensureStaked_iteration_stakes_only_when_due
    {W : Type} (E : avail.Env W) (d : avail.Avail)
    (fuel : nat) (nodeType_ : avail.StakingNodeType)
    (returnErr : option error) (w : W) :
  fst (avail.activeParticipantsQuerier_InProbation W E (avail.minerAddr d) w)
    <> Ok false
  \/ fst (avail.activeParticipantsQuerier_Contains W E (avail.minerAddr d)
            nodeType_
            (snd (avail.activeParticipantsQuerier_InProbation W E
                    (avail.minerAddr d) w)))
     <> Ok false ->
  exists t w' s,
    avail.ensureStaked_iteration E d fuel nodeType_ returnErr w
    = avail.Returned (false, returnErr) t w'
    /\ Forall (fun ev => stake.is_staking_step ev = false) t
    /\ In (avail.EvSleep s) t /\ 3 <= s <= 5.
Proof.
  intros Hdue. unfold avail.ensureStaked_iteration. rewrite bind_call.
  destruct (avail.activeParticipantsQuerier_InProbation W E (avail.minerAddr d) w)
    as [[[|]|e] w1]; simpl in Hdue.
  - rewrite bind_log, (bind_sleep E). simpl.
    eexists _, _, 5. split; [reflexivity|]. split; [now repeat constructor|].
    split; [simpl; auto|lia].
  - rewrite bind_call.
    destruct (avail.activeParticipantsQuerier_Contains W E (avail.minerAddr d)
                nodeType_ w1) as [[[|]|e] w2]; simpl in Hdue.
    + rewrite bind_log, (bind_sleep E). simpl.
      eexists _, _, 3. split; [reflexivity|]. split; [now repeat constructor|].
      split; [simpl; auto|lia].
    + exfalso. destruct Hdue as [H|H]; now apply H.
    + rewrite bind_log, (bind_sleep E). simpl.
      eexists _, _, 3. split; [reflexivity|]. split; [now repeat constructor|].
      split; [simpl; auto|lia].
  - rewrite bind_log, (bind_sleep E). simpl.
    eexists _, _, 3. split; [reflexivity|]. split; [now repeat constructor|].
    split; [simpl; auto|lia].
Qed.

Lemma ensureStaked_iteration_stakes_only_when_due_witness :
  exists t w' s,
    avail.ensureStaked_iteration fixtures.toyEnv fixtures.sequencerNode 3
      avail.staking_Sequencer None
      (fixtures.next_contains fixtures.bootstrapWorld)
    = avail.Returned (false, None) t w'
    /\ Forall (fun ev => stake.is_staking_step ev = false) t
    /\ In (avail.EvSleep s) t /\ 3 <= s <= 5.
Proof.
  apply (ensureStaked_iteration_stakes_only_when_due fixtures.toyEnv
           fixtures.sequencerNode 3 avail.staking_Sequencer None
           (fixtures.next_contains fixtures.bootstrapWorld)).
  right. simpl. discriminate.
Defined.

Section RoleFacts.

Import avail.
Context {W : Type}.
Variable E : Env W.
Variable d : Avail.

Lemma stakeParticipant_direct_discipline (fuel : nat) (w : W) :
  nodeType d = BootstrapSequencer ->
  exists e t w',
    stakeParticipant E d fuel false Sequencer w = Returned e t w'
    /\ Forall stake.direct_discipline t.
Proof.
  intros Hrole.
  destruct (stakeParticipant_returns E d fuel Sequencer w) as (e & t & w' & Hrun & _).
  exists e, t, w'. split; [exact Hrun|].
  destruct (stakeParticipant_direct E d fuel Sequencer w e t w' Hrun)
    as (H1 & _ & H3 & H4).
  apply Forall_forall. intros ev Hin.
  rewrite Forall_forall in H4. specialize (H4 ev Hin).
  destruct ev; simpl in *; trivial.
  - destruct (H1 _ _ _ Hin) as [-> _]. exact Hrole.
  - exact (H3 _ _ Hin).
Qed.

Lemma ensureStaked_iteration_direct_discipline (fuel : nat)
    (nodeType_ : StakingNodeType) (returnErr : option error) (w : W) :
  nodeType d = BootstrapSequencer ->
  exists e t w',
    ensureStaked_iteration E d fuel nodeType_ returnErr w
    = Returned (false, e) t w'
    /\ Forall stake.direct_discipline t.
Proof.
  intros Hrole. unfold ensureStaked_iteration. rewrite Hrole, bind_call.
  destruct (activeParticipantsQuerier_InProbation W E (minerAddr d) w)
    as [[[|]|e] w1].
  - rewrite bind_log, (bind_sleep E). simpl.
    eexists _, _, _. split; [reflexivity|]. now repeat constructor.
  - rewrite bind_call.
    destruct (activeParticipantsQuerier_Contains W E (minerAddr d) nodeType_ w1)
      as [[[|]|e] w2].
    + rewrite bind_log, (bind_sleep E). simpl.
      eexists _, _, _. split; [reflexivity|]. now repeat constructor.
    + rewrite bind_prepend.
      destruct (stakeParticipant_direct_discipline fuel w2 Hrole)
        as (e & t & w3 & -> & Ht).
      simpl. rewrite app_nil_r.
      eexists _, _, _. split; [reflexivity|].
      constructor; [exact I|]. constructor; [exact I|]. exact Ht.
    + rewrite bind_log, (bind_sleep E). simpl.
      eexists _, _, _. split; [reflexivity|]. now repeat constructor.
  - rewrite bind_log, (bind_sleep E). simpl.
    eexists _, _, _. split; [reflexivity|]. now repeat constructor.
Qed.

End RoleFacts.

(** X16.  In the bootstrap-sequencer role the staking goroutine stakes
    through blocks only: every stake transaction it builds is for the
    role [Sequencer] (the staking contract has no bootstrap type), every
    block it writes to the local chain is written under the role
    [BootstrapSequencer], and it never submits to the transaction pool
    nor asks for the bootnode connection count. *)
Theorem ensureStaked_goroutine_bootstrap_discipline
    {W : Type} (E : avail.Env W) (d : avail.Avail) (fuel : nat) :
  avail.nodeType d = avail.BootstrapSequencer ->
  forall nodeType_ returnErr w,
    Forall stake.direct_discipline
      (avail.trace_of
         (avail.ensureStaked_goroutine E d fuel nodeType_ returnErr w)).
Proof.
  intros Hrole. induction fuel as [|fuel IH]; intros nodeType_ returnErr w.
  - constructor.
  - simpl avail.ensureStaked_goroutine. rewrite bind_prepend.
    destruct (ensureStaked_iteration_direct_discipline E d fuel nodeType_
                returnErr w Hrole) as (e & t & w' & -> & Ht).
    cbv iota beta. rewrite trace_of_prepend.
    apply Forall_app. split; [exact Ht|apply IH].
Qed.

Lemma ensureStaked_goroutine_bootstrap_discipline_witness :
  Forall stake.direct_discipline
    (avail.trace_of
       (avail.ensureStaked_goroutine fixtures.toyEnv fixtures.bootstrapNode 3
          avail.staking_Sequencer None fixtures.bootstrapWorld)).
Proof.
  exact (ensureStaked_goroutine_bootstrap_discipline fixtures.toyEnv
           fixtures.bootstrapNode 3 eq_refl avail.staking_Sequencer None
           fixtures.bootstrapWorld).
Defined.

Section TraceInvariants.

Import avail.
Context {W : Type}.
Variable E : Env W.
Variable P : Event -> Prop.

Lemma Forall_trace_bind {A B} (m : M W A) (f : A -> M W B) (w : W) :
  Forall P (trace_of (m w)) ->
  (forall a w', Forall P (trace_of (f a w'))) ->
  Forall P (trace_of (bind m f w)).
Proof.
  intros Hm Hf. unfold bind. destruct (m w) as [a t w1|t w1]; [|exact Hm].
  specialize (Hf a w1). destruct (f a w1); simpl in *;
    apply Forall_app; split; assumption.
Qed.

Lemma Forall_trace_call {A} (f : W -> A * W) (ev : A -> Event) (w : W) :
  (forall a, P (ev a)) -> Forall P (trace_of (call f ev w)).
Proof.
  intros H. unfold call. destruct (f w). simpl. constructor; [apply H|constructor].
Qed.

Lemma Forall_trace_act (f : W -> W) (ev : Event) (w : W) :
  P ev -> Forall P (trace_of (act f ev w)).
Proof. intros H. simpl. constructor; [exact H|constructor]. Qed.

Lemma Forall_trace_log (l : Level) (msg : string) (w : W) :
  P (EvLog l msg) -> Forall P (trace_of (log l msg w)).
Proof. intros H. simpl. constructor; [exact H|constructor]. Qed.

Lemma Forall_trace_sleep (seconds : Z) (w : W) :
  P (EvSleep seconds) -> Forall P (trace_of (sleep E seconds w)).
Proof. intros H. simpl. constructor; [exact H|constructor]. Qed.

Lemma Forall_trace_ret {A} (a : A) (w : W) :
  Forall P (trace_of (ret (W:=W) a w)).
Proof. constructor. Qed.

End TraceInvariants.

Section PoolRoleFacts.

Import avail.
Local Open Scope bridge_scope.
Context {W : Type}.
Variable E : Env W.
Variable d : Avail.

Let P : Event -> Prop := stake.pool_discipline d.

Lemma waitBootnodeConn_pool_discipline (fuel : nat) (w : W) :
  Forall P (trace_of (waitBootnodeConn E d fuel w)).
Proof.
  revert w. induction fuel as [|n IH]; intros w; simpl; [constructor|].
  destruct (negb (hasNetwork d)); [constructor|].
  apply Forall_trace_bind; [apply Forall_trace_call; intros; exact I|].
  intros c w'. destruct (c >? 0); [constructor|].
  apply Forall_trace_bind; [first [apply Forall_trace_log|apply Forall_trace_sleep]; exact I|].
  intros _ w''. apply IH.
Qed.

Lemma submitLoop_pool_discipline (n : nat) (retries : Z)
    (tx : types.Transaction) (err : option error) (w : W) :
  Forall P (trace_of (submitLoop E n retries tx err w)).
Proof.
  revert retries err w. induction n as [|n IH]; intros retries err w; simpl;
    [constructor|].
  destruct (retries <? 10); [|constructor].
  apply Forall_trace_bind; [apply Forall_trace_call; intros; exact I|].
  intros [e|] w'; [|constructor].
  apply Forall_trace_bind; [first [apply Forall_trace_log|apply Forall_trace_sleep]; exact I|].
  intros _ w1.
  apply Forall_trace_bind; [first [apply Forall_trace_log|apply Forall_trace_sleep]; exact I|].
  intros _ w2. apply IH.
Qed.

Lemma pollStaked_pool_discipline (fuel : nat) (w : W) :
  Forall P (trace_of (pollStaked E d fuel w)).
Proof.
  revert w. induction fuel as [|n IH]; intros w; simpl; [constructor|].
  apply Forall_trace_bind; [first [apply Forall_trace_log|apply Forall_trace_sleep]; exact I|].
  intros _ w1.
  apply Forall_trace_bind; [apply Forall_trace_call; intros; exact I|].
  intros [staked|e] w2; [|constructor].
  apply Forall_trace_bind; [first [apply Forall_trace_log|apply Forall_trace_sleep]; exact I|].
  intros _ w3. destruct staked; [constructor|apply IH].
Qed.

Lemma stakeParticipantThroughTxPool_pool_discipline (fuel : nat) (w : W) :
  Forall P (trace_of (stakeParticipantThroughTxPool E d fuel w)).
Proof.
  unfold stakeParticipantThroughTxPool.
  apply Forall_trace_bind; [apply waitBootnodeConn_pool_discipline|].
  intros _ w1.
  apply Forall_trace_bind; [first [apply Forall_trace_log|apply Forall_trace_sleep]; exact I|].
  intros _ w2. cbv zeta.
  apply Forall_trace_bind;
    [apply Forall_trace_call; intros; unfold P; simpl; reflexivity|].
  intros [tx|e] w3; [|constructor].
  apply Forall_trace_bind; [apply Forall_trace_call; intros; exact I|].
  intros [tx'|e] w4; [|constructor].
  apply Forall_trace_bind; [apply submitLoop_pool_discipline|].
  intros [e|] w5; [constructor|apply pollStaked_pool_discipline].
Qed.

Lemma ensureStaked_iteration_pool_discipline (fuel : nat)
    (nodeType_ : StakingNodeType) (returnErr : option error) (w : W) :
  nodeType d <> BootstrapSequencer ->
  Forall P (trace_of (ensureStaked_iteration E d fuel nodeType_ returnErr w)).
Proof.
  intros Hrole. unfold ensureStaked_iteration.
  apply Forall_trace_bind; [apply Forall_trace_call; intros; exact I|].
  intros [inProbation|e] w1.
  - destruct inProbation.
    + apply Forall_trace_bind; [first [apply Forall_trace_log|apply Forall_trace_sleep]; exact I|].
      intros _ w2.
      apply Forall_trace_bind; [first [apply Forall_trace_log|apply Forall_trace_sleep]; exact I|].
      intros; constructor.
    + apply Forall_trace_bind; [apply Forall_trace_call; intros; exact I|].
      intros [staked|e] w2.
      * destruct staked.
        -- apply Forall_trace_bind; [first [apply Forall_trace_log|apply Forall_trace_sleep]; exact I|].
           intros _ w3.
           apply Forall_trace_bind; [first [apply Forall_trace_log|apply Forall_trace_sleep]; exact I|].
           intros; constructor.
        -- destruct (nodeType d) eqn:Hn; [congruence| | |constructor].
           ++ apply Forall_trace_bind.
              ** apply stakeParticipantThroughTxPool_pool_discipline.
              ** intros [s e] w3. constructor.
           ++ apply Forall_trace_bind.
              ** apply stakeParticipantThroughTxPool_pool_discipline.
              ** intros [s e] w3. constructor.
      * apply Forall_trace_bind; [first [apply Forall_trace_log|apply Forall_trace_sleep]; exact I|].
        intros _ w3.
        apply Forall_trace_bind; [first [apply Forall_trace_log|apply Forall_trace_sleep]; exact I|].
        intros; constructor.
  - apply Forall_trace_bind; [first [apply Forall_trace_log|apply Forall_trace_sleep]; exact I|].
    intros _ w2.
    apply Forall_trace_bind; [first [apply Forall_trace_log|apply Forall_trace_sleep]; exact I|].
    intros; constructor.
Qed.

End PoolRoleFacts.

(** X17.  Outside the bootstrap-sequencer role the staking goroutine
    stakes through the transaction pool only: however long it runs, and
    whether it returns or not, it never takes a block builder, never
    builds or signs a block, never sends one to the DA chain and never
    writes one to the local chain, and every stake transaction it
    builds is for the node's own role. *)
Theorem ensureStaked_goroutine_pool_discipline
    {W : Type} (E : avail.Env W) (d : avail.Avail) (fuel : nat) :
  avail.nodeType d <> avail.BootstrapSequencer ->
  forall nodeType_ returnErr w,
    Forall (stake.pool_discipline d)
      (avail.trace_of
         (avail.ensureStaked_goroutine E d fuel nodeType_ returnErr w)).
Proof.
  intros Hrole. induction fuel as [|fuel IH]; intros nodeType_ returnErr w.
  - constructor.
  - simpl avail.ensureStaked_goroutine.
    apply Forall_trace_bind.
    + now apply ensureStaked_iteration_pool_discipline.
    + intros [[|] e] w'; [constructor|apply IH].
Qed.

Lemma ensureStaked_goroutine_pool_discipline_witness :
  Forall (stake.pool_discipline fixtures.sequencerNode)
    (avail.trace_of
       (avail.ensureStaked_goroutine fixtures.toyEnv fixtures.sequencerNode 4
          avail.staking_Sequencer None fixtures.joiningWorld)).
Proof.
  refine (ensureStaked_goroutine_pool_discipline fixtures.toyEnv
            fixtures.sequencerNode 4 _ avail.staking_Sequencer None
            fixtures.joiningWorld).
  discriminate.
Defined.

Section PeerFacts.

Import avail.
Context {W : Type}.
Variable E : Env W.
Variable d : Avail.

Lemma waitBootnodeConn_shape (fuel : nat) :
  forall w, exists cs,
    Forall (fun c => c <= 0) cs
    /\ ((exists w', waitBootnodeConn E d fuel w
                    = Pending (stake.peer_wait cs) w'
                    /\ List.length cs = fuel)
        \/ (exists gate w',
              waitBootnodeConn E d fuel w
              = Returned tt (stake.peer_wait cs ++ gate) w'
              /\ stake.peer_gate d cs gate)).
Proof.
  induction fuel as [|fuel IH]; intros w.
  - exists []. split; [constructor|]. left. exists w. now split.
  - simpl waitBootnodeConn. unfold stake.peer_gate.
    destruct (hasNetwork d) eqn:Hnet; cbn [negb].
    + rewrite bind_call.
      destruct (network_GetBootnodeConnCount W E w) as [c w1].
      destruct (c >? 0) eqn:Hc.
      * exists []. split; [constructor|]. right.
        exists [EvGetBootnodeConnCount c], w1. split; [reflexivity|].
        exists c. split; [lia|reflexivity].
      * rewrite (bind_sleep E).
        destruct (IH (time_Sleep W E 1 w1)) as (cs & Hcs & Hcase).
        exists (c :: cs). split; [constructor; [lia|exact Hcs]|].
        destruct Hcase as [(w' & -> & Hl)|(gate & w' & -> & Hg)].
        -- left. exists w'. split; [reflexivity|simpl; now rewrite Hl].
        -- right. exists gate, w'. split; [reflexivity|].
           unfold stake.peer_gate in Hg. now rewrite Hnet in Hg.
    + exists []. split; [constructor|]. right. exists [], w. now split.
Qed.

End PeerFacts.

(** X20.  The pool path does not build its stake transaction before a
    peer is there: on a node with a network every connection count that
    is not positive is followed by a sleep of 1 s and another count, for
    as long as the function is observed; the first positive count (or,
    on a node without a network, nothing at all) is followed by the
    sleep of 5 s and only then by the call that builds the stake
    transaction for the node's own role. *)
Theorem stakeParticipantThroughTxPool_waits_for_peer
    {W : Type} (E : avail.Env W) (d : avail.Avail) (fuel : nat) (w : W) :
  let o := avail.stakeParticipantThroughTxPool E d fuel w in
  exists cs,
    Forall (fun c => c <= 0) cs
    /\ ((exists w', o = avail.Pending (stake.peer_wait cs) w'
                    /\ List.length cs = fuel)
        \/ (exists gate r rest,
              avail.trace_of o
              = stake.peer_wait cs ++ gate
                ++ avail.EvSleep 5 :: avail.EvStakeTx (avail.nodeType d) r
                   :: rest
              /\ stake.peer_gate d cs gate)).
Proof.
  intros o.
  assert (Ho : o = avail.stakeParticipantThroughTxPool E d fuel w)
    by reflexivity.
  clearbody o. unfold avail.stakeParticipantThroughTxPool in Ho.
  cbv zeta in Ho. rewrite bind_prepend in Ho.
  destruct (waitBootnodeConn_shape E d fuel w) as (cs & Hcs & Hcase).
  exists cs. split; [exact Hcs|].
  destruct Hcase as [(w' & Hw & Hl)|(gate & w' & Hw & Hg)];
    rewrite Hw in Ho.
  - left. exists w'. subst o. now split.
  - right. rewrite (bind_sleep E), bind_call in Ho.
    destruct (avail.staking_StakeTx W E (avail.minerAddr d)
                (10 * avail.common_ETH W E) (avail.nodeType d) 1000000
                (avail.time_Sleep W E 5 w')) as [r w2].
    exists gate, r.
    eexists. split; [|exact Hg].
    subst o. rewrite !trace_of_prepend, <- !app_assoc. simpl.
    reflexivity.
Qed.

(** The error of [ensureStaked] for a role it does not know, with the
    name between double quotes as [%q] writes it. *)
Example ensureStaked_nodeType_unknown :
  avail.ensureStaked_nodeType
    (avail.mkAvail (avail.OtherMechanism "validator") [] [] 0 true)
  = Err (String.append "unknown node type: "
           (String strconv.quote
              (String.append "validator"
                 (String strconv.quote EmptyString)))).
Proof. reflexivity. Qed.
